(** * The registry selector of the import-export CLI (operator/registry/registry.go)

    A shallow embedding of the Go package [registry]: the catalog of container
    registries keyed by option, the process-wide selection [optionToExec],
    flag validation, the controller-config update and its orchestration with
    the credential step.

    Conventions of the embedding:
    - Go [int] is [Z]; the code only compares options, it performs no arithmetic
      on them, so no wrap-around arises.
    - A Go pointer is an [option]: [None] is [nil], and dereferencing [nil]
      panics.  The catalog [map[int]*Registry] only ever receives pointers that
      [add] has already dereferenced, so its values are plain [Registry]s; the
      lookup of a missing key yields the nil pointer.
    - Go maps are [gmap]s.  The order in which [range] visits a map is not
      specified by Go; it is the [RangeOrder] argument of every loop over a map.
    - A run of an operation yields an outcome (normal return, process exit
      through [HandleErrorAndExit], or a run-time panic), the final package
      state and the trace of calls made to the outside world. *)

From stdpp Require Import gmap strings list fin_maps sorting.

Set Warnings "-register-all".
#[local] Open Scope Z_scope.

(** ** Data model *)

(** Go [error] values carry a message ([errors.New]). *)
Definition error := string.

(** The payloads of [interface{}] that the package passes around. *)
Inductive iface :=
  | INil
  | IStr (s : string)
  | IInt (z : Z)
  | IBool (b : bool).

(** A [func] value: a code pointer, resolved by the collaborators below. *)
Definition fnptr := nat.

(** [type Flags struct]: both fields are pointers to [map[string]bool]. *)
Record Flags := {
  RequiredFlags : option (gmap string bool);
  OptionalFlags : option (gmap string bool)
}.

(** [type FlagValue struct]. *)
Record FlagValue := {
  Value : iface;
  IsProvided : bool
}.

(** [type Registry struct].  The field [Flags] is [Flags_] here, the record
    above already has that name. *)
Record Registry := {
  Name : string;
  Caption : string;
  Repository : option string;
  Option : Z;
  Read : option fnptr;
  Run : option fnptr;
  Flags_ : Flags
}.

(** The two package variables [registries] and [optionToExec]. *)
Record State := {
  registries : gmap Z Registry;
  optionToExec : Z
}.

(** The state at program start: [make(map[int]*Registry)] and the zero [int]. *)
Definition initState : State := {| registries := ∅; optionToExec := 0 |}.

(** The zero value of [FlagValue], which indexing a map yields at a missing key. *)
Definition zeroFlagValue : FlagValue := {| Value := INil; IsProvided := false |}.

(** [m[k]] on a Go map: the zero value when the key is missing. *)
Definition index_bool (m : gmap string bool) (k : string) : bool :=
  default false (m !! k).

Definition index_flag (m : gmap string FlagValue) (k : string) : FlagValue :=
  default zeroFlagValue (m !! k).

(** *** Generic YAML values, as [yaml.v2] decodes them into
    [map[interface{}]interface{}] *)

Inductive ykey :=
  | KStr (s : string)
  | KInt (z : Z)
  | KBool (b : bool).

#[global] Instance ykey_eq_dec : EqDecision ykey.
Proof. solve_decision. Defined.

#[global] Instance ykey_countable : Countable ykey.
Proof.
  refine (inj_countable'
    (fun k => match k with
              | KStr s => inl s
              | KInt z => inr (inl z)
              | KBool b => inr (inr b)
              end)
    (fun x => match x with
              | inl s => KStr s
              | inr (inl z) => KInt z
              | inr (inr b) => KBool b
              end) _).
  by intros [].
Defined.

Inductive yval :=
  | VNull
  | VStr (s : string)
  | VInt (z : Z)
  | VBool (b : bool)
  | VSeq (l : list yval)
  | VMap (m : gmap ykey yval).

(** ** Runs: outcomes, traces and the monad of package operations *)

(** What a nil dereference was applied to. *)
Inductive nilref :=
  | NilEntry          (* registries[k] for a key that is not in the catalog *)
  | NilRepository     (* Registry.Repository *)
  | NilRequiredFlags  (* Flags.RequiredFlags *)
  | NilOptionalFlags  (* Flags.OptionalFlags *)
  | NilFlagValues     (* the *map[string]FlagValue argument *)
  | NilFunc           (* a nil Read or Run *)
  | NilRegistry.      (* the *Registry argument of add *)

(** Run-time panics of the Go runtime. *)
Inductive panic :=
  | NilDereference (what : nilref)
  | InterfaceConversion.

(** Calls that leave the package, in the order they are made. *)
Inductive Event :=
  | EvPrintln (s : string)
  | EvPrintf (format : string) (args : list iface)
  | EvReadOption (prompt : string) (min max : Z) (retry : bool)
  | EvGetCommandOutput (args : list string)
  | EvApplyFromStdin (yaml : string)
  | EvRead (f : fnptr) (flagValues : option (gmap string FlagValue))
  | EvRun (f : fnptr).

Inductive Outcome (A : Type) :=
  | Done (a : A)
  | Exit (msg : string) (err : option error)
  | Panic (p : panic).
Arguments Done {A} a.
Arguments Exit {A} msg err.
Arguments Panic {A} p.

Definition Execution (A : Type) : Type := Outcome A * State * list Event.

Definition M (A : Type) : Type := State -> list Event -> Execution A.

Definition outcome {A} (r : Execution A) : Outcome A := r.1.1.
Definition final {A} (r : Execution A) : State := r.1.2.
Definition trace {A} (r : Execution A) : list Event := r.2.

Definition ret {A} (a : A) : M A := fun s t => (Done a, s, t).

Definition bind {A B} (m : M A) (k : A -> M B) : M B :=
  fun s t =>
    match m s t with
    | (Done a, s', t') => k a s' t'
    | (Exit msg err, s', t') => (Exit msg err, s', t')
    | (Panic p, s', t') => (Panic p, s', t')
    end.

Declare Scope go_scope.
Delimit Scope go_scope with go.
Notation "x <- m ;; k" := (bind m (fun x => k))
  (at level 100, m at next level, right associativity) : go_scope.
Notation "m ;; k" := (bind m (fun _ => k))
  (at level 100, right associativity) : go_scope.
#[local] Open Scope go_scope.

Definition get : M State := fun s t => (Done s, s, t).
Definition put (s' : State) : M unit := fun _ t => (Done tt, s', t).
Definition emit (e : Event) : M unit := fun s t => (Done tt, s, t ++ [e]).
Definition throw {A} (p : panic) : M A := fun s t => (Panic p, s, t).

(** Dereference of a pointer. *)
Definition deref {A} (what : nilref) (p : option A) : M A :=
  match p with
  | Some a => ret a
  | None => throw (NilDereference what)
  end.

(** Modelled from the spec: [utils.HandleErrorAndExit] is not part of this
    file; the spec gives it as "print message and terminate process with
    non-zero status".  The run ends there with the message and the error. *)
Definition HandleErrorAndExit {A} (msg : string) (err : option error) : M A :=
  fun s t => (Exit msg err, s, t).

(** [registries[key]] followed by a field access: the entry, or a panic on the
    nil pointer of a missing key. *)
Definition entry (key : Z) : M Registry :=
  s <- get ;; deref NilEntry (registries s !! key).

(** [registries[optionToExec]]. *)
Definition selected : M Registry :=
  s <- get ;; entry (optionToExec s).

(** [optionToExec = opt]. *)
Definition setOption (opt : Z) : M unit :=
  s <- get ;; put {| registries := registries s; optionToExec := opt |}.

(** ** Collaborators *)

(** What the user does at the prompt of [utils.ReadOption]. *)
Inductive Response :=
  | Answer (n : Z)
  | NotANumber (text : string)
  | ReadFailure (e : error).

(** The result of a capability ([Read] or [Run]) of a backend: how it ends and
    the package state it leaves. *)
Definition Capability : Type := State -> Outcome unit * State.

(** Everything the file uses and does not define: the cluster CLI wrapper and
    its constants ([k8sUtils]), the YAML library, the user, and the code
    behind the [func] values stored in a [Registry]. *)
Record Collab := {
  Kubectl : string;
  K8sGet : string;
  K8sConfigMap : string;
  ApiOpControllerConfigMap : string;
  ApiOpWso2Namespace : string;
  CtrlConfigRegType : string;
  CtrlConfigReg : string;
  GetCommandOutput : list string -> string + error;
  K8sApplyFromStdin : string -> option error;
  yaml_Unmarshal : string -> gmap ykey yval + error;
  yaml_Marshal : gmap ykey yval -> string + error;
  response : Response;
  call_Read : fnptr -> option (gmap string FlagValue) -> Capability;
  call_Run : fnptr -> Capability
}.

(** The order in which one [range] loop visits the entries of a map: any
    rearrangement of them. *)
Record RangeOrder := {
  range_registries : list (Z * Registry) -> list (Z * Registry);
  range_required : list (string * bool) -> list (string * bool);
  range_flags : list (string * FlagValue) -> list (string * FlagValue);
  range_registries_perm : forall l, range_registries l ≡ₚ l;
  range_required_perm : forall l, range_required l ≡ₚ l;
  range_flags_perm : forall l, range_flags l ≡ₚ l
}.

(** Two orders: the one of [map_to_list], and its reverse. *)
Definition order_id : RangeOrder :=
  {| range_registries := fun l => l;
     range_required := fun l => l;
     range_flags := fun l => l;
     range_registries_perm := fun l => reflexivity l;
     range_required_perm := fun l => reflexivity l;
     range_flags_perm := fun l => reflexivity l |}.

Definition order_rev : RangeOrder :=
  {| range_registries := reverse;
     range_required := reverse;
     range_flags := reverse;
     range_registries_perm := reverse_Permutation;
     range_required_perm := reverse_Permutation;
     range_flags_perm := reverse_Permutation |}.

(** A capability runs on the package state; its own calls are not traced. *)
Definition invoke (c : Capability) : M unit :=
  fun s t => let '(o, s') := c s in (o, s', t).

(** Modelled from the spec: [utils.ReadOption] is not part of this file; the
    spec gives it as "read an integer within [min,max] with a prompt label",
    yielding the integer or an error, the error on an out-of-range or
    non-numeric response and on a read failure. *)
Definition ReadOption (E : Collab) (prompt : string) (min max : Z) (retry : bool)
  : M (Z + error) :=
  emit (EvReadOption prompt min max retry) ;;
  match response E with
  | Answer n =>
      if bool_decide (min <= n) && bool_decide (n <= max)
      then ret (inl n)
      else ret (inr "option out of range"%string)
  | NotANumber _ => ret (inr "option is not a number"%string)
  | ReadFailure e => ret (inr e)
  end.

(** [sort.Ints] of the Go library: the slice in increasing order. *)
Definition sort_Ints (keys : list Z) : list Z := merge_sort Z.le keys.

Definition Println (s : string) : M unit := emit (EvPrintln s).
Definition Printf (format : string) (args : list iface) : M unit :=
  emit (EvPrintf format args).

(** The line feed of the Go string literals. *)
Definition nl : string := String (Ascii.ascii_of_nat 10) EmptyString.

(** ** The operations of registry.go *)

Section Operations.

Variable E : Collab.
Variable ro : RangeOrder.

(** [ReadInputsInteractive]: [registries[optionToExec].Read(nil)]. *)
Definition ReadInputsInteractive : M unit :=
  reg <- selected ;;
  f <- deref NilFunc (Read reg) ;;
  emit (EvRead f None) ;;
  invoke (call_Read E f None).

(** [ReadInputsFromFlags]: [registries[optionToExec].Read(flagValues)]. *)
Definition ReadInputsFromFlags (flagValues : option (gmap string FlagValue)) : M unit :=
  reg <- selected ;;
  f <- deref NilFunc (Read reg) ;;
  emit (EvRead f flagValues) ;;
  invoke (call_Read E f flagValues).

(** The assignment [controllerConfigMap["data"].(map[interface{}]interface{})[k] = v]:
    the type assertion panics unless ["data"] holds a mapping; the assignment
    writes through to the mapping the outer map holds. *)
Definition setData (controllerConfigMap : gmap ykey yval) (k : string) (v : string)
  : M (gmap ykey yval) :=
  match controllerConfigMap !! KStr "data" with
  | Some (VMap data) =>
      ret (<[KStr "data" := VMap (<[KStr k := VStr v]> data)]> controllerConfigMap)
  | _ => throw InterfaceConversion
  end.

(** The command line that reads the controller config map. *)
Definition getConfigArgs : list string :=
  [Kubectl E; K8sGet E; K8sConfigMap E; ApiOpControllerConfigMap E;
   "-n"; ApiOpWso2Namespace E; "-o"; "yaml"]%string.

(** [updateCtrlConfig]. *)
Definition updateCtrlConfig (registryType repository : string) : M unit :=
  emit (EvGetCommandOutput getConfigArgs) ;;
  controllerConfigMapYaml <-
    match GetCommandOutput E getConfigArgs with
    | inl out => ret out
    | inr _ =>
        HandleErrorAndExit
          ("Error reading controller-config." +:+ nl +:+
           "Install api operator using the command: apictl install api-operator")
          (Some "error reading controller-config"%string)
    end ;;
  controllerConfigMap <-
    match yaml_Unmarshal E controllerConfigMapYaml with
    | inl m => ret m
    | inr err => HandleErrorAndExit "Error reading controller-config" (Some err)
    end ;;
  controllerConfigMap <- setData controllerConfigMap (CtrlConfigRegType E) registryType ;;
  controllerConfigMap <- setData controllerConfigMap (CtrlConfigReg E) repository ;;
  configuredConfigMap <-
    match yaml_Marshal E controllerConfigMap with
    | inl out => ret out
    | inr err => HandleErrorAndExit "Error rendering controller-config" (Some err)
    end ;;
  emit (EvApplyFromStdin configuredConfigMap) ;;
  match K8sApplyFromStdin E configuredConfigMap with
  | None => ret tt
  | Some err => HandleErrorAndExit "Error creating controller-configs" (Some err)
  end.

(** [UpdateConfigsSecrets]: both arguments of [updateCtrlConfig] are evaluated,
    left to right, before the call. *)
Definition UpdateConfigsSecrets : M unit :=
  reg <- selected ;;
  reg' <- selected ;;
  repository <- deref NilRepository (Repository reg') ;;
  updateCtrlConfig (Name reg) repository ;;
  reg'' <- selected ;;
  f <- deref NilFunc (Run reg'') ;;
  emit (EvRun f) ;;
  invoke (call_Run E f).

(** First loop of [ChooseRegistryInteractive]: [keys = append(keys, key)]. *)
Fixpoint appendKeys (kvs : list (Z * Registry)) (keys : list Z) : list Z :=
  match kvs with
  | [] => keys
  | (key, _) :: rest => appendKeys rest (keys ++ [key])
  end.

(** Second loop: one [Printf] per key. *)
Fixpoint printRegistries (keys : list Z) : M unit :=
  match keys with
  | [] => ret tt
  | key :: rest =>
      reg <- entry key ;;
      Printf ("%d: %s" +:+ nl) [IInt key; IStr (Caption reg)] ;;
      printRegistries rest
  end.

(** [ChooseRegistryInteractive]. *)
Definition ChooseRegistryInteractive : M unit :=
  s <- get ;;
  let keys := appendKeys (range_registries ro (map_to_list (registries s))) [] in
  let keys := sort_Ints keys in
  Println "Choose registry type:" ;;
  printRegistries keys ;;
  r <- ReadOption E "Choose a number" 1 (Z.of_nat (length keys)) true ;;
  option <-
    match r with
    | inl option => ret option
    | inr err => HandleErrorAndExit "Error reading registry type" (Some err)
    end ;;
  setOption option.

(** The loop of [SetRegistry], with what follows it. *)
Fixpoint scanRegistries (kvs : list (Z * Registry)) (registryType : string) : M unit :=
  match kvs with
  | [] => HandleErrorAndExit ("Invalid registry type: " +:+ registryType) None
  | (opt, reg) :: rest =>
      if bool_decide (Name reg = registryType)
      then setOption opt
      else scanRegistries rest registryType
  end.

(** [SetRegistry]. *)
Definition SetRegistry (registryType : string) : M unit :=
  s <- get ;;
  scanRegistries (range_registries ro (map_to_list (registries s))) registryType.

(** First loop of [ValidateFlags].  [flagsValues] is dereferenced only once
    [flgRequired] holds ([&&] is short-circuit). *)
Fixpoint checkRequired (kvs : list (string * bool))
    (flagsValues : option (gmap string FlagValue)) : M unit :=
  match kvs with
  | [] => ret tt
  | (flg, flgRequired) :: rest =>
      missing <-
        (if flgRequired
         then fv <- deref NilFlagValues flagsValues ;;
              ret (negb (IsProvided (index_flag fv flg)))
         else ret false) ;;
      (if (missing : bool)
       then HandleErrorAndExit
              ("Required flag is missing in batch mode. Flag: " +:+ flg) None
       else ret tt) ;;
      checkRequired rest flagsValues
  end.

(** Second loop of [ValidateFlags]; the descriptor is looked up again at each
    operand that names it. *)
Fixpoint checkAdditional (kvs : list (string * FlagValue)) : M unit :=
  match kvs with
  | [] => ret tt
  | (flg, flgVal) :: rest =>
      additional <-
        (if IsProvided flgVal
         then reg <- selected ;;
              required <- deref NilRequiredFlags (RequiredFlags (Flags_ reg)) ;;
              if negb (index_bool required flg)
              then reg' <- selected ;;
                   optional <- deref NilOptionalFlags (OptionalFlags (Flags_ reg')) ;;
                   ret (negb (index_bool optional flg))
              else ret false
         else ret false) ;;
      (if (additional : bool)
       then HandleErrorAndExit
              ("Invalid, not supported flag found in batch mode. Flag: " +:+ flg) None
       else ret tt) ;;
      checkAdditional rest
  end.

(** [ValidateFlags]. *)
Definition ValidateFlags (flagsValues : option (gmap string FlagValue)) : M unit :=
  reg <- selected ;;
  required <- deref NilRequiredFlags (RequiredFlags (Flags_ reg)) ;;
  checkRequired (range_required ro (map_to_list required)) flagsValues ;;
  fv <- deref NilFlagValues flagsValues ;;
  checkAdditional (range_flags ro (map_to_list fv)).

(** [add]. *)
Definition add (registry : option Registry) : M unit :=
  registry <- deref NilRegistry registry ;;
  (if bool_decide (Option registry < 1)
   then HandleErrorAndExit ("Error adding registry: " +:+ Name registry)
          (Some "'option' should be positive"%string)
   else ret tt) ;;
  s <- get ;;
  (if bool_decide (is_Some (registries s !! Option registry))
   then HandleErrorAndExit ("Error adding registry" +:+ Name registry)
          (Some "duplicate 'options' values"%string)
   else ret tt) ;;
  s <- get ;;
  put {| registries := <[Option registry := registry]> (registries s);
         optionToExec := optionToExec s |}.

End Operations.

(** The listing line [fmt.Printf("%d: %s\n", key, caption)]. *)
Definition listing_line (key : Z) (caption : string) : Event :=
  EvPrintf ("%d: %s" +:+ nl) [IInt key; IStr caption].

(** The keys of a catalog in increasing order, and the catalog's entries in
    that order. *)
Definition sortedKeys (m : gmap Z Registry) : list Z :=
  sort_Ints (map_to_list m).*1.

Definition entriesAt (m : gmap Z Registry) (keys : list Z) : list (Z * Registry) :=
  omap (fun k => pair k <$> m !! k) keys.

Definition sortedEntries (m : gmap Z Registry) : list (Z * Registry) :=
  entriesAt m (sortedKeys m).

(** The events of the listing: the heading, then one line per entry. *)
Definition listing (entries : list (Z * Registry)) : list Event :=
  EvPrintln "Choose registry type:" ::
  map (fun e => listing_line e.1 (Caption e.2)) entries.

(** The prompt that follows a listing of [n] entries. *)
Definition prompt (n : nat) : Event :=
  EvReadOption "Choose a number" 1 (Z.of_nat n) true.

(** Flag sets.  A [map[string]bool] stands for the set of the names it maps
    to [true]: the code tests membership by indexing, [m[flg]], which is
    [false] for a missing name and for a name mapped to [false] alike. *)
Definition marked (m : gmap string bool) (flg : string) : bool := index_bool m flg.

(** The flag is in the flag map with [IsProvided] set. *)
Definition is_provided (fv : gmap string FlagValue) (flg : string) : bool :=
  IsProvided (index_flag fv flg).

(** A required flag that is absent from the flag map or not provided. *)
Definition missing_required (required : gmap string bool)
    (fv : gmap string FlagValue) (flg : string) : Prop :=
  marked required flg = true /\ is_provided fv flg = false.

(** A provided flag that is neither required nor optional. *)
Definition unsupported (required optional : gmap string bool)
    (fv : gmap string FlagValue) (flg : string) : Prop :=
  is_provided fv flg = true /\ marked required flg = false /\
  marked optional flg = false.

(** One test of the second loop of [ValidateFlags]. *)
Definition is_additional (required optional : gmap string bool)
    (flg : string) (flgVal : FlagValue) : bool :=
  IsProvided flgVal && negb (marked required flg) && negb (marked optional flg).

Definition missing_msg (flg : string) : string :=
  "Required flag is missing in batch mode. Flag: " +:+ flg.

Definition unsupported_msg (flg : string) : string :=
  "Invalid, not supported flag found in batch mode. Flag: " +:+ flg.

(** The mapping that [updateCtrlConfig] hands to [yaml.Marshal] when the
    decoded mapping is [m] and its ["data"] entry is the mapping [data]. *)
Definition updatedConfig (E : Collab) (m data : gmap ykey yval)
    (registryType repository : string) : gmap ykey yval :=
  <[KStr "data" :=
      VMap (<[KStr (CtrlConfigReg E) := VStr repository]>
              (<[KStr (CtrlConfigRegType E) := VStr registryType]> data))]> m.

(** Catalogs built at start-up: the states that successful [add] calls reach
    from the initial one. *)
Inductive built : State -> Prop :=
  | built_init : built initState
  | built_add s registry t r :
      built s ->
      add (Some registry) s t = r ->
      outcome r = Done tt ->
      built (final r).

(** Every key of the catalog is positive and is the option of the descriptor
    stored under it, so that no two stored descriptors share an option. *)
Definition positive_unique_options (s : State) : Prop :=
  (forall k r, registries s !! k = Some r -> 0 < k /\ Option r = k) /\
  (forall k1 k2 r1 r2,
     registries s !! k1 = Some r1 -> registries s !! k2 = Some r2 ->
     Option r1 = Option r2 -> k1 = k2).

(** Executable checks of the two conditions of [ValidateFlags] over the
    entries of the maps. *)
Definition no_missingb (required : gmap string bool)
    (fv : gmap string FlagValue) : bool :=
  forallb (fun e => negb e.2 || is_provided fv e.1) (map_to_list required).

Definition no_unsupportedb (required optional : gmap string bool)
    (fv : gmap string FlagValue) : bool :=
  forallb (fun e => negb (is_additional required optional e.1 e.2)) (map_to_list fv).

(** ** Test doubles

    A catalog after the scenario of the specification (one descriptor with
    option 1, required flags username and password, optional flag url), more
    descriptors to register, and stand-ins for the collaborators.  The strings
    of the stand-ins are their own, not the constants of [k8sUtils]. *)

Definition dockerHub : Registry :=
  {| Name := "docker-hub";
     Caption := "Docker Hub";
     Repository := Some "wso2"%string;
     Option := 1;
     Read := Some 0%nat;
     Run := Some 1%nat;
     Flags_ := {| RequiredFlags := Some (<["username" := true]> (<["password" := true]> ∅));
                  OptionalFlags := Some (<["url" := true]> ∅) |} |}.

Definition amazonECR : Registry :=
  {| Name := "amazon-ecr";
     Caption := "Amazon ECR";
     Repository := None;
     Option := 2;
     Read := Some 2%nat;
     Run := Some 3%nat;
     Flags_ := {| RequiredFlags := Some (<["repository" := true]> ∅);
                  OptionalFlags := Some ∅ |} |}.

Definition harbor : Registry :=
  {| Name := "harbor";
     Caption := "Harbor";
     Repository := Some "library"%string;
     Option := 3;
     Read := Some 4%nat;
     Run := Some 5%nat;
     Flags_ := {| RequiredFlags := Some ∅; OptionalFlags := Some ∅ |} |}.

(** A descriptor whose option was left at the zero value. *)
Definition unnumbered : Registry :=
  {| Name := "unnumbered";
     Caption := "No option";
     Repository := None;
     Option := 0;
     Read := None;
     Run := None;
     Flags_ := {| RequiredFlags := None; OptionalFlags := None |} |}.

(** The catalog of the scenario before and after [SetRegistry "docker-hub"]. *)
Definition catalog1 : State :=
  {| registries := <[1 := dockerHub]> ∅; optionToExec := 0 |}.

Definition chosen1 : State :=
  {| registries := <[1 := dockerHub]> ∅; optionToExec := 1 |}.

(** Three descriptors, registered in the order 3, 1, 2; the second one
    selected, whose repository pointer is nil. *)
Definition catalog3 : State :=
  {| registries := <[2 := amazonECR]> (<[1 := dockerHub]> (<[3 := harbor]> ∅));
     optionToExec := 2 |}.

(** A catalog with a gap: options 1 and 3, none selected. *)
Definition catalogGap : State :=
  {| registries := <[3 := harbor]> (<[1 := dockerHub]> ∅); optionToExec := 0 |}.

(** A descriptor that lists a flag with the mark [false], selected. *)
Definition quay : Registry :=
  {| Name := "quay";
     Caption := "Quay";
     Repository := Some "wso2"%string;
     Option := 1;
     Read := Some 6%nat;
     Run := Some 7%nat;
     Flags_ := {| RequiredFlags := Some (<["token" := false]> ∅);
                  OptionalFlags := Some ∅ |} |}.

Definition chosenQuay : State :=
  {| registries := <[1 := quay]> ∅; optionToExec := 1 |}.

Definition flag (provided : bool) : FlagValue :=
  {| Value := if provided then IStr "x" else INil; IsProvided := provided |}.

Definition flags_username : gmap string FlagValue :=
  <["username" := flag true]> ∅.

Definition flags_both : gmap string FlagValue :=
  <["username" := flag true]> (<["password" := flag true]> ∅).

Definition flags_extra : gmap string FlagValue :=
  <["d" := flag true]> flags_both.

Definition flags_only_extra : gmap string FlagValue :=
  <["d" := flag true]> (<["password" := flag false]> ∅).

(** A controller config map with and without its [data] mapping. *)
Definition configData : gmap ykey yval :=
  <[KStr "registryType" := VStr "HTTP"]> (<[KStr "replicas" := VStr "1"]> ∅).

Definition configMap : gmap ykey yval :=
  <[KStr "data" := VMap configData]> (<[KStr "kind" := VStr "ConfigMap"]> ∅).

Definition configMapNoData : gmap ykey yval :=
  <[KStr "kind" := VStr "ConfigMap"]> ∅.

(** Collaborators that decode every text to [decoded], encode every mapping
    to one text, answer the prompt with [resp] and apply with result [applied];
    capabilities return at once. *)
Definition double (decoded : gmap ykey yval) (resp : Response)
    (applied : option error) : Collab :=
  {| Kubectl := "kubectl";
     K8sGet := "get";
     K8sConfigMap := "configmap";
     ApiOpControllerConfigMap := "controller-config";
     ApiOpWso2Namespace := "wso2-system";
     CtrlConfigRegType := "registryType";
     CtrlConfigReg := "repository";
     GetCommandOutput := fun _ => inl "kind: ConfigMap"%string;
     K8sApplyFromStdin := fun _ => applied;
     yaml_Unmarshal := fun _ => inl decoded;
     yaml_Marshal := fun _ => inl "kind: ConfigMap # updated"%string;
     response := resp;
     call_Read := fun _ _ s => (Done tt, s);
     call_Run := fun _ s => (Done tt, s) |}.

(** Catalogs that successful [add] calls reach from a given state. *)
Inductive grows : State -> State -> Prop :=
  | grows_refl s : grows s s
  | grows_add s s' registry t r :
      grows s s' ->
      add (Some registry) s' t = r ->
      outcome r = Done tt ->
      grows s (final r).

(** Two [add] calls in a row. *)
Definition addBoth (first second : Registry) : M unit :=
  add (Some first) ;; add (Some second).

(** More stand-ins: a cluster CLI and a YAML library with chosen results. *)
Definition doubleOf (got : string + error) (decoded : gmap ykey yval + error)
    (encoded : string + error) (applied : option error) : Collab :=
  {| Kubectl := "kubectl";
     K8sGet := "get";
     K8sConfigMap := "configmap";
     ApiOpControllerConfigMap := "controller-config";
     ApiOpWso2Namespace := "wso2-system";
     CtrlConfigRegType := "registryType";
     CtrlConfigReg := "repository";
     GetCommandOutput := fun _ => got;
     K8sApplyFromStdin := fun _ => applied;
     yaml_Unmarshal := fun _ => decoded;
     yaml_Marshal := fun _ => encoded;
     response := ReadFailure "EOF";
     call_Read := fun _ _ s => (Done tt, s);
     call_Run := fun _ s => (Exit "Error creating secret" None, s) |}.

(** A descriptor without a map of optional flags and without [Run], selected. *)
Definition bare : Registry :=
  {| Name := "bare";
     Caption := "Bare";
     Repository := Some "wso2"%string;
     Option := 1;
     Read := None;
     Run := None;
     Flags_ := {| RequiredFlags := Some (<["username" := true]> ∅);
                  OptionalFlags := None |} |}.

Definition chosenBare : State :=
  {| registries := <[1 := bare]> ∅; optionToExec := 1 |}.

(** The order of a scan that visits the entry of option [k] first. *)
Definition order_first (k : Z) : RangeOrder :=
  {| range_registries := fun l =>
       filter (fun e => e.1 = k) l ++ filter (fun e => ~ e.1 = k) l;
     range_required := fun l => l;
     range_flags := fun l => l;
     range_registries_perm := filter_app_complement (fun e => e.1 = k);
     range_required_perm := fun l => reflexivity l;
     range_flags_perm := fun l => reflexivity l |}.

(** Two descriptors under one name. *)
Definition mirror : Registry :=
  {| Name := "docker-hub";
     Caption := "Docker Hub mirror";
     Repository := Some "mirror"%string;
     Option := 2;
     Read := Some 8%nat;
     Run := Some 9%nat;
     Flags_ := {| RequiredFlags := Some ∅; OptionalFlags := Some ∅ |} |}.

Definition catalogTwins : State :=
  {| registries := <[2 := mirror]> (<[1 := dockerHub]> ∅); optionToExec := 0 |}.

(** ** Reasoning about runs *)

Ltac unfold_go :=
  unfold selected, entry, setOption, deref, HandleErrorAndExit, Println, Printf,
    invoke, throw, emit, put, get, bind, ret, outcome, final, trace in *.

Ltac run := repeat (unfold_go; simpl in * ).

Lemma bind_done {A B} (m : M A) (k : A -> M B) s t a s' t' :
  m s t = (Done a, s', t') -> bind m k s t = k a s' t'.
Proof. unfold bind. by intros ->. Qed.

Lemma bind_exit {A B} (m : M A) (k : A -> M B) s t msg err s' t' :
  m s t = (Exit msg err, s', t') -> bind m k s t = (Exit msg err, s', t').
Proof. unfold bind. by intros ->. Qed.

Lemma bind_panic {A B} (m : M A) (k : A -> M B) s t p s' t' :
  m s t = (Panic p, s', t') -> bind m k s t = (Panic p, s', t').
Proof. unfold bind. by intros ->. Qed.

Lemma state_eta (s : State) :
  {| registries := registries s; optionToExec := optionToExec s |} = s.
Proof. by destruct s. Qed.

(** ** Catalog registration *)

Lemma add_rejects r s t :
  Option r < 1 \/ is_Some (registries s !! Option r) ->
  exists msg err, add (Some r) s t = (Exit msg err, s, t).
Proof.
  intros Hbad. unfold add. run.
  case_bool_decide as Hpos; [by eauto |].
  case_bool_decide as Hocc; [by eauto |].
  destruct Hbad; [lia | done].
Qed.

Lemma add_accepts r s t :
  1 <= Option r -> registries s !! Option r = None ->
  add (Some r) s t =
    (Done tt,
     {| registries := <[Option r := r]> (registries s);
        optionToExec := optionToExec s |}, t).
Proof.
  intros Hpos Hfree. unfold add. run.
  case_bool_decide; [lia |].
  case_bool_decide as Hocc; [| done].
  rewrite Hfree in Hocc. by destruct Hocc.
Qed.

Lemma add_done_inv r s t s' t' :
  add (Some r) s t = (Done tt, s', t') ->
  1 <= Option r /\ registries s !! Option r = None /\
  s' = {| registries := <[Option r := r]> (registries s);
          optionToExec := optionToExec s |} /\ t' = t.
Proof.
  intros Hrun.
  destruct (decide (Option r < 1)) as [Hlt | Hge].
  { destruct (add_rejects r s t (or_introl Hlt)) as (? & ? & Heq). congruence. }
  destruct (registries s !! Option r) as [r0 |] eqn:Hlk.
  { destruct (add_rejects r s t) as (? & ? & Heq); [| congruence].
    right. rewrite Hlk. by eexists. }
  rewrite add_accepts in Hrun by (done || lia).
  split; [lia |]. split; [done |]. by inversion Hrun.
Qed.

Lemma built_keys s : built s ->
  forall k r, registries s !! k = Some r -> 0 < k /\ Option r = k.
Proof.
  induction 1 as [| s registry t r Hb IH Hadd Hdone]; intros k r0 Hlk.
  - simpl in Hlk. by rewrite lookup_empty in Hlk.
  - destruct r as [[o s'] t']. unfold outcome, final in *. simpl in *. subst o.
    apply add_done_inv in Hadd as (Hpos & Hfree & -> & _). simpl in Hlk.
    destruct (decide (Option registry = k)) as [<- | Hne].
    + rewrite lookup_insert_eq in Hlk. inversion Hlk; subst. split; [lia | done].
    + rewrite lookup_insert_ne in Hlk by done. by apply IH.
Qed.

(** C3. [add] refuses (fatal exit, package state untouched) a descriptor whose
    option is below 1 or whose slot is taken; otherwise it returns normally
    and the descriptor is then found under its option, every other slot being
    as before.  Hence every catalog that [add] calls build from the empty one
    has only positive keys, each the option of its descriptor, so that options
    are pairwise distinct. *)
Theorem add_contract (r : Registry) (s : State) (t : list Event) :
  (Option r < 1 \/ is_Some (registries s !! Option r) ->
     exists msg err, add (Some r) s t = (Exit msg err, s, t)) /\
  (0 < Option r -> registries s !! Option r = None ->
     exists s', add (Some r) s t = (Done tt, s', t) /\
       registries s' !! Option r = Some r /\
       (forall k, k <> Option r -> registries s' !! k = registries s !! k) /\
       optionToExec s' = optionToExec s) /\
  (built s -> positive_unique_options s).
Proof.
  split; [apply add_rejects |]. split.
  - intros Hpos Hfree. eexists. split; [apply add_accepts; [lia | done] |].
    simpl. split; [apply lookup_insert_eq |]. split; [| done].
    intros k Hne. by apply lookup_insert_ne.
  - intros Hb. split; [by apply built_keys |].
    intros k1 k2 r1 r2 H1 H2 Heq.
    apply (built_keys _ Hb) in H1 as [_ <-], H2 as [_ <-]. done.
Qed.

(** ** Selection by name *)

Lemma scanRegistries_found kvs name s t :
  (exists k r, (k, r) ∈ kvs /\ Name r = name) ->
  exists k r, (k, r) ∈ kvs /\ Name r = name /\
    scanRegistries kvs name s t =
      (Done tt, {| registries := registries s; optionToExec := k |}, t).
Proof.
  induction kvs as [| [opt reg] rest IH]; intros (k & r & Hin & Hname).
  - by apply elem_of_nil in Hin.
  - simpl. case_bool_decide as Hhd.
    + exists opt, reg. split; [by left |]. by split.
    + apply elem_of_cons in Hin as [Heq | Hin]; [by inversion Heq; subst |].
      destruct IH as (k' & r' & Hin' & Hname' & Hrun); [by eauto |].
      exists k', r'. split; [by right |]. by split.
Qed.

Lemma scanRegistries_not_found kvs name s t :
  (forall k r, (k, r) ∈ kvs -> Name r <> name) ->
  scanRegistries kvs name s t =
    (Exit ("Invalid registry type: " +:+ name) None, s, t).
Proof.
  induction kvs as [| [opt reg] rest IH]; intros Hnone; [done |].
  simpl. case_bool_decide as Hhd.
  - exfalso. by apply (Hnone opt reg); [left |].
  - apply IH. intros k r Hin. apply (Hnone k r). by right.
Qed.

Lemma elem_of_range_registries ro (m : gmap Z Registry) k r :
  (k, r) ∈ range_registries ro (map_to_list m) <-> m !! k = Some r.
Proof. rewrite (range_registries_perm ro). apply elem_of_map_to_list. Qed.

(** C7. [SetRegistry] stores the option of a descriptor whose name equals the
    argument whenever the catalog has one, whatever order the scan takes, and
    leaves the catalog as it is; when no name matches, the run ends in the
    fatal error "Invalid registry type: <name>" with the package state,
    the earlier selection included, as it was. *)
Theorem SetRegistry_contract (ro : RangeOrder) (name : string) (s : State)
    (t : list Event) :
  ((exists k r, registries s !! k = Some r /\ Name r = name) ->
     exists k r, registries s !! k = Some r /\ Name r = name /\
       SetRegistry ro name s t =
         (Done tt, {| registries := registries s; optionToExec := k |}, t)) /\
  ((forall k r, registries s !! k = Some r -> Name r <> name) ->
     SetRegistry ro name s t =
       (Exit ("Invalid registry type: " +:+ name) None, s, t)).
Proof.
  unfold SetRegistry. split.
  - intros (k & r & Hlk & Hname).
    destruct (scanRegistries_found
                (range_registries ro (map_to_list (registries s))) name s t)
      as (k' & r' & Hin & Hname' & Hrun).
    { exists k, r. by rewrite elem_of_range_registries. }
    exists k', r'. apply elem_of_range_registries in Hin. done.
  - intros Hnone. run. apply scanRegistries_not_found.
    intros k r Hin. apply (Hnone k r). by apply elem_of_range_registries in Hin.
Qed.

(** ** Interactive selection *)

Lemma appendKeys_app kvs keys : appendKeys kvs keys = keys ++ kvs.*1.
Proof.
  revert keys. induction kvs as [| [key reg] rest IH]; intros keys; simpl.
  - by rewrite app_nil_r.
  - rewrite IH, <- app_assoc. done.
Qed.

Lemma sort_Ints_sorted keys : StronglySorted Z.le (sort_Ints keys).
Proof. apply StronglySorted_merge_sort; apply _. Qed.

Lemma sort_Ints_perm keys : sort_Ints keys ≡ₚ keys.
Proof. apply merge_sort_Permutation. Qed.

(** Sorting forgets the order in which [range] delivered the keys. *)
Lemma ranged_keys_sorted ro (m : gmap Z Registry) :
  sort_Ints (appendKeys (range_registries ro (map_to_list m)) []) = sortedKeys m.
Proof.
  unfold sortedKeys. apply (StronglySorted_unique Z.le); try apply sort_Ints_sorted.
  rewrite !sort_Ints_perm, appendKeys_app. simpl.
  by rewrite (range_registries_perm ro).
Qed.

Lemma sortedKeys_perm (m : gmap Z Registry) : sortedKeys m ≡ₚ (map_to_list m).*1.
Proof. apply sort_Ints_perm. Qed.

Lemma sortedKeys_length (m : gmap Z Registry) : length (sortedKeys m) = size m.
Proof.
  rewrite (Permutation_length (sortedKeys_perm m)), length_fmap.
  apply length_map_to_list.
Qed.

Lemma elem_of_sortedKeys (m : gmap Z Registry) k :
  k ∈ sortedKeys m <-> is_Some (m !! k).
Proof.
  rewrite sortedKeys_perm, list_elem_of_fmap. split.
  - intros ([k' r] & -> & Hin). apply elem_of_map_to_list in Hin. by eexists.
  - intros [r Hlk]. exists (k, r). split; [done |]. by apply elem_of_map_to_list.
Qed.

Lemma sortedKeys_NoDup (m : gmap Z Registry) : NoDup (sortedKeys m).
Proof. rewrite sortedKeys_perm. apply NoDup_fst_map_to_list. Qed.

Lemma StronglySorted_le_lt (l : list Z) :
  StronglySorted Z.le l -> NoDup l -> StronglySorted Z.lt l.
Proof.
  induction 1 as [| x l Hl IH Hx]; intros Hnd; [constructor |].
  apply NoDup_cons in Hnd as [Hnotin Hnd]. constructor; [by apply IH |].
  rewrite Forall_forall in Hx |- *. intros y Hy.
  specialize (Hx y Hy). assert (x <> y) by (intros ->; done). lia.
Qed.

Lemma entriesAt_keys (m : gmap Z Registry) keys :
  (forall k, k ∈ keys -> is_Some (m !! k)) -> (entriesAt m keys).*1 = keys.
Proof.
  induction keys as [| k keys IH]; intros Hall; [done |].
  unfold entriesAt in *. simpl.
  destruct (Hall k) as [r Hlk]; [by left |]. rewrite Hlk. simpl.
  f_equal. apply IH. intros k' Hin. apply Hall. by right.
Qed.

Lemma elem_of_entriesAt (m : gmap Z Registry) keys k r :
  (k, r) ∈ entriesAt m keys <-> k ∈ keys /\ m !! k = Some r.
Proof.
  unfold entriesAt. rewrite list_elem_of_omap. split.
  - intros (k' & Hin & Hf). destruct (m !! k') as [r' |] eqn:Hlk; [| done].
    simpl in Hf. inversion Hf; subst. done.
  - intros [Hin Hlk]. exists k. split; [done |]. by rewrite Hlk.
Qed.

Lemma sortedEntries_keys (m : gmap Z Registry) : (sortedEntries m).*1 = sortedKeys m.
Proof. apply entriesAt_keys. intros k. apply elem_of_sortedKeys. Qed.

Lemma sortedEntries_perm (m : gmap Z Registry) : sortedEntries m ≡ₚ map_to_list m.
Proof.
  apply NoDup_Permutation.
  - apply (NoDup_fmap_1 fst). rewrite sortedEntries_keys. apply sortedKeys_NoDup.
  - apply NoDup_map_to_list.
  - intros [k r]. unfold sortedEntries.
    rewrite elem_of_entriesAt, elem_of_sortedKeys, elem_of_map_to_list.
    split; [by intros [_ ?] | intros Hlk; split; [by eexists | done]].
Qed.

Lemma sortedEntries_ascending (m : gmap Z Registry) :
  StronglySorted Z.lt (sortedEntries m).*1.
Proof.
  rewrite sortedEntries_keys. apply StronglySorted_le_lt.
  - apply sort_Ints_sorted.
  - apply sortedKeys_NoDup.
Qed.

Lemma printRegistries_run keys s t :
  (forall k, k ∈ keys -> is_Some (registries s !! k)) ->
  printRegistries keys s t =
    (Done tt, s,
     t ++ map (fun e => listing_line e.1 (Caption e.2)) (entriesAt (registries s) keys)).
Proof.
  revert t. induction keys as [| k keys IH]; intros t Hall.
  - run. by rewrite app_nil_r.
  - destruct (Hall k) as [r Hlk]; [by left |].
    cbn [printRegistries]. unfold_go. rewrite Hlk. rewrite IH.
    + unfold entriesAt. cbn [omap list_omap]. rewrite Hlk. simpl. by rewrite <- app_assoc.
    + intros k' Hin. apply Hall. by right.
Qed.

(** The whole run of [ChooseRegistryInteractive], by the user's response. *)
Lemma ChooseRegistryInteractive_run E ro s t :
  let count := Z.of_nat (size (registries s)) in
  let t' := t ++ listing (sortedEntries (registries s)) ++ [prompt (size (registries s))] in
  ChooseRegistryInteractive E ro s t =
    match response E with
    | Answer n =>
        if bool_decide (1 <= n) && bool_decide (n <= count)
        then (Done tt, {| registries := registries s; optionToExec := n |}, t')
        else (Exit "Error reading registry type" (Some "option out of range"%string), s, t')
    | NotANumber _ =>
        (Exit "Error reading registry type" (Some "option is not a number"%string), s, t')
    | ReadFailure e => (Exit "Error reading registry type" (Some e), s, t')
    end.
Proof.
  intros count t'. unfold ChooseRegistryInteractive.
  rewrite (bind_done _ _ s t s s t) by done.
  rewrite ranged_keys_sorted, sortedKeys_length.
  rewrite (bind_done _ _ s t tt s (t ++ [EvPrintln "Choose registry type:"])) by done.
  erewrite bind_done; [| apply printRegistries_run; intros k; apply elem_of_sortedKeys].
  assert (((t ++ [EvPrintln "Choose registry type:"]) ++
           map (fun e => listing_line e.1 (Caption e.2))
             (entriesAt (registries s) (sortedKeys (registries s)))) ++
          [prompt (size (registries s))] = t') as Ht'.
  { unfold t', listing, sortedEntries. by rewrite <- !app_assoc. }
  unfold prompt in Ht'. fold count in Ht'.
  unfold ReadOption. run. fold count. rewrite Ht'.
  destruct (response E) as [n | text | e]; simpl; try done.
  by destruct (bool_decide (1 <= n) && bool_decide (n <= count)).
Qed.

(** C6. [ChooseRegistryInteractive] either returns normally, having stored a
    selection within [1, count] for [count] the number of registered
    descriptors and left the catalog alone, or ends in the fatal error
    "Error reading registry type" with the package state unchanged.  A
    response within the range is stored; a response out of the range, one
    that is no number and a failed read all end in the fatal error. *)
Theorem ChooseRegistryInteractive_selection (E : Collab) (ro : RangeOrder)
    (s : State) (t : list Event) :
  let count := Z.of_nat (size (registries s)) in
  let r := ChooseRegistryInteractive E ro s t in
  ((outcome r = Done tt /\ registries (final r) = registries s /\
    1 <= optionToExec (final r) <= count) \/
   (exists err, outcome r = Exit "Error reading registry type" (Some err) /\
      final r = s)) /\
  (forall n, response E = Answer n -> 1 <= n <= count ->
     outcome r = Done tt /\
     final r = {| registries := registries s; optionToExec := n |}) /\
  ((forall n, response E = Answer n -> ~ (1 <= n <= count)) ->
     exists err, outcome r = Exit "Error reading registry type" (Some err) /\
       final r = s).
Proof.
  intros count r. subst r. rewrite ChooseRegistryInteractive_run. fold count.
  destruct (response E) as [n | text | e] eqn:Hresp.
  - destruct (decide (1 <= n <= count)) as [Hin | Hout].
    + rewrite !bool_decide_eq_true_2 by lia. simpl.
      split; [left; by repeat split; simpl; try lia |].
      split; [intros n' [= <-] _; done |].
      intros Hbad. by destruct (Hbad n).
    + assert (bool_decide (1 <= n) && bool_decide (n <= count) = false) as ->.
      { apply andb_false_iff. rewrite !bool_decide_eq_false. lia. }
      split; [right; by eexists |].
      split; [intros n' [= <-] ?; done | intros _; by eexists].
  - split; [right; by eexists |]. split; [done | intros _; by eexists].
  - split; [right; by eexists |]. split; [done | intros _; by eexists].
Qed.

(** C8. The listing of [ChooseRegistryInteractive] is the heading followed by
    one [Printf("%d: %s\n", option, caption)] per entry of the catalog, every
    entry once, in strictly ascending order of the options, and then the
    prompt; the run does not depend on the order in which [range] visits the
    catalog. *)
Theorem ChooseRegistryInteractive_listing (E : Collab) (ro : RangeOrder)
    (s : State) (t : list Event) :
  let entries := sortedEntries (registries s) in
  entries ≡ₚ map_to_list (registries s) /\
  StronglySorted Z.lt entries.*1 /\
  trace (ChooseRegistryInteractive E ro s t) =
    t ++ listing entries ++ [prompt (length entries)] /\
  forall ro', ChooseRegistryInteractive E ro' s t = ChooseRegistryInteractive E ro s t.
Proof.
  intros entries. split; [apply sortedEntries_perm |].
  split; [apply sortedEntries_ascending |]. split.
  - assert (length entries = size (registries s)) as ->.
    { unfold entries.
      by rewrite <- (length_fmap fst), sortedEntries_keys, sortedKeys_length. }
    rewrite ChooseRegistryInteractive_run.
    destruct (response E) as [n | text | e]; try done.
    by destruct (bool_decide (1 <= n) && _).
  - intros ro'. by rewrite !ChooseRegistryInteractive_run.
Qed.

(** ** Flag validation *)

Lemma is_provided_lookup (fv : gmap string FlagValue) flg :
  is_provided fv flg = true <-> exists v, fv !! flg = Some v /\ IsProvided v = true.
Proof.
  unfold is_provided, index_flag. destruct (fv !! flg) as [v |]; simpl.
  - split; [by eauto | by intros (? & [= <-] & ?)].
  - split; [done | by intros (? & ? & ?)].
Qed.

Lemma marked_lookup (m : gmap string bool) flg :
  marked m flg = true <-> m !! flg = Some true.
Proof.
  unfold marked, index_bool. destruct (m !! flg) as [[] |]; simpl; split; done.
Qed.

Lemma checkRequired_missing kvs fv s t :
  (exists flg, (flg, true) ∈ kvs /\ is_provided fv flg = false) ->
  exists flg, (flg, true) ∈ kvs /\ is_provided fv flg = false /\
    checkRequired kvs (Some fv) s t = (Exit (missing_msg flg) None, s, t).
Proof.
  induction kvs as [| [flg b] rest IH]; intros (f & Hin & Hnp).
  - by apply elem_of_nil in Hin.
  - destruct b, (is_provided fv flg) eqn:Hp.
    + apply elem_of_cons in Hin as [[= <-] | Hin]; [congruence |].
      destruct IH as (g & Hg & Hgp & Hrun); [by eauto |].
      exists g. split; [by right |]. split; [done |].
      cbn [checkRequired]. unfold is_provided in Hp. run. by rewrite Hp.
    + exists flg. split; [by left |]. split; [done |].
      cbn [checkRequired]. unfold is_provided in Hp. run. by rewrite Hp.
    + apply elem_of_cons in Hin as [[=] | Hin].
      destruct IH as (g & Hg & Hgp & Hrun); [by eauto |].
      exists g. split; [by right |]. by split.
    + apply elem_of_cons in Hin as [[=] | Hin].
      destruct IH as (g & Hg & Hgp & Hrun); [by eauto |].
      exists g. split; [by right |]. by split.
Qed.

Lemma checkRequired_ok kvs fv s t :
  (forall flg, (flg, true) ∈ kvs -> is_provided fv flg = true) ->
  checkRequired kvs (Some fv) s t = (Done tt, s, t).
Proof.
  induction kvs as [| [flg b] rest IH]; intros Hall; [done |].
  assert (checkRequired rest (Some fv) s t = (Done tt, s, t)) as Hrest.
  { apply IH. intros g Hg. apply Hall. by right. }
  destruct b; [| done].
  pose proof (Hall flg ltac:(by left)) as Hp.
  cbn [checkRequired]. unfold is_provided in Hp. run. by rewrite Hp.
Qed.

Section Additional.

Variables (s : State) (reg : Registry) (required optional : gmap string bool).
Hypothesis Hsel : registries s !! optionToExec s = Some reg.
Hypothesis Hreq : RequiredFlags (Flags_ reg) = Some required.
Hypothesis Hopt : OptionalFlags (Flags_ reg) = Some optional.

Lemma checkAdditional_cons flg flgVal rest t :
  checkAdditional ((flg, flgVal) :: rest) s t =
    if is_additional required optional flg flgVal
    then (Exit (unsupported_msg flg) None, s, t)
    else checkAdditional rest s t.
Proof.
  cbn [checkAdditional]. unfold is_additional, marked.
  destruct (IsProvided flgVal); [| done].
  unfold_go. rewrite Hsel, Hreq.
  destruct (index_bool required flg); [done |].
  cbn [negb andb]. rewrite Hsel, Hopt.
  by destruct (index_bool optional flg).
Qed.

Lemma checkAdditional_found kvs t :
  (exists flg v, (flg, v) ∈ kvs /\ is_additional required optional flg v = true) ->
  exists flg v, (flg, v) ∈ kvs /\ is_additional required optional flg v = true /\
    checkAdditional kvs s t = (Exit (unsupported_msg flg) None, s, t).
Proof.
  induction kvs as [| [flg v] rest IH]; intros (f & w & Hin & Hadd).
  - by apply elem_of_nil in Hin.
  - rewrite checkAdditional_cons. destruct (is_additional required optional flg v) eqn:Hhd.
    + exists flg, v. split; [by left |]. by split.
    + apply elem_of_cons in Hin as [[= <- <-] | Hin]; [congruence |].
      destruct IH as (g & u & Hg & Hgu & Hrun); [by eauto |].
      exists g, u. split; [by right |]. by split.
Qed.

Lemma checkAdditional_ok kvs t :
  (forall flg v, (flg, v) ∈ kvs -> is_additional required optional flg v = false) ->
  checkAdditional kvs s t = (Done tt, s, t).
Proof.
  induction kvs as [| [flg v] rest IH]; intros Hall; [done |].
  rewrite checkAdditional_cons, (Hall flg v) by (by left).
  apply IH. intros g u Hg. apply (Hall g u). by right.
Qed.

Lemma is_additional_unsupported (fv : gmap string FlagValue) flg v :
  fv !! flg = Some v ->
  is_additional required optional flg v = true <-> unsupported required optional fv flg.
Proof.
  intros Hlk. unfold is_additional, unsupported, is_provided, index_flag.
  rewrite Hlk. simpl.
  destruct (IsProvided v), (marked required flg), (marked optional flg);
    simpl; split; (done || by intros (? & ? & ?)).
Qed.

Lemma unsupported_entry (fv : gmap string FlagValue) flg :
  unsupported required optional fv flg ->
  exists v, fv !! flg = Some v /\ is_additional required optional flg v = true.
Proof.
  intros Hun. pose proof Hun as (Hp & _).
  apply is_provided_lookup in Hp as (v & Hlk & _).
  exists v. split; [done |]. by apply (is_additional_unsupported fv).
Qed.

(** The run of [ValidateFlags] on a selected descriptor whose two flag maps
    and whose argument are not nil. *)
Lemma ValidateFlags_run ro (fv : gmap string FlagValue) t :
  ValidateFlags ro (Some fv) s t =
    match checkRequired (range_required ro (map_to_list required)) (Some fv) s t with
    | (Done _, s', t') => checkAdditional (range_flags ro (map_to_list fv)) s' t'
    | (Exit msg err, s', t') => (Exit msg err, s', t')
    | (Panic p, s', t') => (Panic p, s', t')
    end.
Proof.
  unfold ValidateFlags. unfold_go. rewrite Hsel, Hreq.
  by destruct (checkRequired _ _ s t) as [[[] ?] ?].
Qed.

Lemma ValidateFlags_missing ro (fv : gmap string FlagValue) t :
  (exists flg, missing_required required fv flg) ->
  exists flg, missing_required required fv flg /\
    ValidateFlags ro (Some fv) s t = (Exit (missing_msg flg) None, s, t).
Proof.
  intros (f & Hm & Hnp). rewrite ValidateFlags_run.
  destruct (checkRequired_missing
              (range_required ro (map_to_list required)) fv s t)
    as (g & Hg & Hgp & ->).
  { exists f. split; [| done].
    rewrite (range_required_perm ro), elem_of_map_to_list.
    by apply marked_lookup. }
  exists g. split; [| done]. split; [| done].
  rewrite (range_required_perm ro), elem_of_map_to_list in Hg.
  by apply marked_lookup.
Qed.

Lemma ValidateFlags_required_ok ro (fv : gmap string FlagValue) t :
  (forall flg, ~ missing_required required fv flg) ->
  ValidateFlags ro (Some fv) s t =
    checkAdditional (range_flags ro (map_to_list fv)) s t.
Proof.
  intros Hnone. rewrite ValidateFlags_run, checkRequired_ok; [done |].
  intros flg Hin.
  rewrite (range_required_perm ro), elem_of_map_to_list in Hin.
  destruct (is_provided fv flg) eqn:Hp; [done |].
  destruct (Hnone flg). split; [by apply marked_lookup | done].
Qed.

End Additional.

(** C1. For a selected descriptor and a flag map: when some required flag
    (one its map of required flags marks [true]) is absent from the flag map
    or not provided, [ValidateFlags] ends in the fatal error "Required flag is
    missing in batch mode. Flag: <flag>" naming such a flag; when no required
    flag is missing and some provided flag is neither required nor optional,
    it ends in the fatal error "Invalid, not supported flag found in batch
    mode. Flag: <flag>" naming such a flag; otherwise it returns normally.
    The package state and the trace are the same in all three cases. *)
Theorem ValidateFlags_outcomes (ro : RangeOrder) (s : State) (t : list Event)
    (reg : Registry) (required optional : gmap string bool)
    (fv : gmap string FlagValue) :
  registries s !! optionToExec s = Some reg ->
  RequiredFlags (Flags_ reg) = Some required ->
  OptionalFlags (Flags_ reg) = Some optional ->
  let r := ValidateFlags ro (Some fv) s t in
  ((exists flg, missing_required required fv flg) ->
     exists flg, missing_required required fv flg /\
       r = (Exit (missing_msg flg) None, s, t)) /\
  ((forall flg, ~ missing_required required fv flg) ->
   (exists flg, unsupported required optional fv flg) ->
     exists flg, unsupported required optional fv flg /\
       r = (Exit (unsupported_msg flg) None, s, t)) /\
  ((forall flg, ~ missing_required required fv flg) ->
   (forall flg, ~ unsupported required optional fv flg) ->
     r = (Done tt, s, t)).
Proof.
  intros Hsel Hreq Hopt r. subst r.
  split; [by apply (ValidateFlags_missing s reg) |]. split.
  - intros Hnone (f & Hun).
    rewrite (ValidateFlags_required_ok s reg required) by done.
    destruct (unsupported_entry required optional fv f Hun) as (v & Hlk & Hadd).
    destruct (checkAdditional_found s reg required optional Hsel Hreq Hopt
                (range_flags ro (map_to_list fv)) t)
      as (g & u & Hg & Hgu & ->).
    { exists f, v. by rewrite (range_flags_perm ro), elem_of_map_to_list. }
    exists g. split; [| done].
    rewrite (range_flags_perm ro), elem_of_map_to_list in Hg.
    by apply (is_additional_unsupported required optional fv g u).
  - intros Hnone Hsup.
    rewrite (ValidateFlags_required_ok s reg required) by done.
    apply (checkAdditional_ok s reg required optional Hsel Hreq Hopt).
    intros g u Hg.
    rewrite (range_flags_perm ro), elem_of_map_to_list in Hg.
    destruct (is_additional required optional g u) eqn:Hadd; [| done].
    destruct (Hsup g). by apply (is_additional_unsupported required optional fv g u).
Qed.

(** C2. When a flag map has both a missing required flag and a provided flag
    that is neither required nor optional, [ValidateFlags] ends in the
    missing-required error for a missing required flag, and in no
    unsupported-flag error: the first loop ends the run before the second
    starts. *)
Theorem ValidateFlags_missing_preempts (ro : RangeOrder) (s : State)
    (t : list Event) (reg : Registry) (required optional : gmap string bool)
    (fv : gmap string FlagValue) :
  registries s !! optionToExec s = Some reg ->
  RequiredFlags (Flags_ reg) = Some required ->
  OptionalFlags (Flags_ reg) = Some optional ->
  (exists flg, missing_required required fv flg) ->
  (exists flg, unsupported required optional fv flg) ->
  let r := ValidateFlags ro (Some fv) s t in
  (exists flg, missing_required required fv flg /\
     r = (Exit (missing_msg flg) None, s, t)) /\
  (forall flg err, outcome r <> Exit (unsupported_msg flg) err).
Proof.
  intros Hsel Hreq Hopt Hmiss _ r. subst r.
  destruct (ValidateFlags_missing s reg required Hsel Hreq ro fv t Hmiss)
    as (f & Hf & ->).
  split; [by exists f |].
  intros g err. unfold outcome. simpl. by intros [=].
Qed.

(** ** The controller-config update *)

Lemma setData_twice m data k1 v1 k2 v2 s t :
  m !! KStr "data" = Some (VMap data) ->
  bind (setData m k1 v1) (fun m1 => setData m1 k2 v2) s t =
    (Done (<[KStr "data" := VMap (<[KStr k2 := VStr v2]> (<[KStr k1 := VStr v1]> data))]> m),
     s, t).
Proof.
  intros Hdata. unfold setData at 1. rewrite Hdata. unfold_go.
  unfold setData. rewrite lookup_insert_eq. by rewrite insert_insert_eq.
Qed.

Lemma setData_panics m k v s t :
  (forall data, m !! KStr "data" <> Some (VMap data)) ->
  setData m k v s t = (Panic InterfaceConversion, s, t).
Proof.
  intros Hno. unfold setData.
  destruct (m !! KStr "data") as [[] |] eqn:Hlk; try done.
  by destruct (Hno m0).
Qed.

(** The run of [updateCtrlConfig] once the config map was read and decoded
    and holds a ["data"] mapping. *)
Lemma updateCtrlConfig_run E registryType repository s t y m data :
  GetCommandOutput E (getConfigArgs E) = inl y ->
  yaml_Unmarshal E y = inl m ->
  m !! KStr "data" = Some (VMap data) ->
  updateCtrlConfig E registryType repository s t =
    match yaml_Marshal E (updatedConfig E m data registryType repository) with
    | inl out =>
        (match K8sApplyFromStdin E out with
         | None => Done tt
         | Some err => Exit "Error creating controller-configs" (Some err)
         end, s,
         t ++ [EvGetCommandOutput (getConfigArgs E); EvApplyFromStdin out])
    | inr err =>
        (Exit "Error rendering controller-config" (Some err), s,
         t ++ [EvGetCommandOutput (getConfigArgs E)])
    end.
Proof.
  intros Hget Hdec Hdata. unfold updateCtrlConfig.
  rewrite (bind_done _ _ s t tt s (t ++ [EvGetCommandOutput (getConfigArgs E)])) by done.
  rewrite Hget. rewrite (bind_done _ _ _ _ y s _) by done.
  rewrite Hdec. rewrite (bind_done _ _ _ _ m s _) by done.
  pose proof (setData_twice m data (CtrlConfigRegType E) registryType
                (CtrlConfigReg E) repository s
                (t ++ [EvGetCommandOutput (getConfigArgs E)]) Hdata) as Hset.
  unfold bind in Hset |- *.
  destruct (setData m (CtrlConfigRegType E) registryType s _) as [[[m1 | |] s1] t1];
    try done.
  rewrite Hset. fold (updatedConfig E m data registryType repository).
  destruct (yaml_Marshal E _) as [out | err]; unfold_go; [| done].
  rewrite <- app_assoc. simpl. by destruct (K8sApplyFromStdin E out).
Qed.

(** C4. When the decoded controller config map holds a mapping under ["data"],
    the mapping that [updateCtrlConfig] re-encodes again holds a mapping under
    ["data"], in which the repository key has the second argument and the
    registry-type key (a key of its own) has the first; every other key under
    ["data"] and every other key of the config map is as decoded.  The
    encoding of that mapping is the YAML text that is applied. *)
Theorem updateCtrlConfig_frame (E : Collab) (registryType repository : string)
    (s : State) (t : list Event) (y : string) (m data : gmap ykey yval) :
  GetCommandOutput E (getConfigArgs E) = inl y ->
  yaml_Unmarshal E y = inl m ->
  m !! KStr "data" = Some (VMap data) ->
  let data' := <[KStr (CtrlConfigReg E) := VStr repository]>
                 (<[KStr (CtrlConfigRegType E) := VStr registryType]> data) in
  let m' := updatedConfig E m data registryType repository in
  m' !! KStr "data" = Some (VMap data') /\
  data' !! KStr (CtrlConfigReg E) = Some (VStr repository) /\
  (CtrlConfigRegType E <> CtrlConfigReg E ->
     data' !! KStr (CtrlConfigRegType E) = Some (VStr registryType)) /\
  (forall k, k <> KStr (CtrlConfigRegType E) -> k <> KStr (CtrlConfigReg E) ->
     data' !! k = data !! k) /\
  (forall k, k <> KStr "data" -> m' !! k = m !! k) /\
  updateCtrlConfig E registryType repository s t =
    match yaml_Marshal E m' with
    | inl out =>
        (match K8sApplyFromStdin E out with
         | None => Done tt
         | Some err => Exit "Error creating controller-configs" (Some err)
         end, s,
         t ++ [EvGetCommandOutput (getConfigArgs E); EvApplyFromStdin out])
    | inr err =>
        (Exit "Error rendering controller-config" (Some err), s,
         t ++ [EvGetCommandOutput (getConfigArgs E)])
    end.
Proof.
  intros Hget Hdec Hdata data' m'.
  split; [apply lookup_insert_eq |].
  split; [apply lookup_insert_eq |].
  split.
  { intros Hne. unfold data'. rewrite lookup_insert_ne by congruence.
    apply lookup_insert_eq. }
  split.
  { intros k Hk1 Hk2. unfold data'. by rewrite !lookup_insert_ne. }
  split.
  { intros k Hk. unfold m', updatedConfig. by rewrite lookup_insert_ne. }
  by apply (updateCtrlConfig_run E registryType repository s t y m data).
Qed.

(** What any run of [updateCtrlConfig] leaves behind: the package state is
    untouched, no capability is invoked, and a normal return means the
    config map was read and the new text applied without error. *)
Lemma updateCtrlConfig_effects E registryType repository s t :
  exists evs,
    trace (updateCtrlConfig E registryType repository s t) = t ++ evs /\
    final (updateCtrlConfig E registryType repository s t) = s /\
    (forall f, EvRun f ∉ evs) /\
    (outcome (updateCtrlConfig E registryType repository s t) = Done tt ->
     exists out,
       evs = [EvGetCommandOutput (getConfigArgs E); EvApplyFromStdin out] /\
       K8sApplyFromStdin E out = None).
Proof.
  destruct (GetCommandOutput E (getConfigArgs E)) as [y | e] eqn:Hget.
  2: { exists [EvGetCommandOutput (getConfigArgs E)].
       unfold updateCtrlConfig. unfold_go. rewrite Hget. simpl.
       repeat split; try done. intros f Hin. by apply list_elem_of_singleton in Hin. }
  destruct (yaml_Unmarshal E y) as [m | e] eqn:Hdec.
  2: { exists [EvGetCommandOutput (getConfigArgs E)].
       unfold updateCtrlConfig. unfold_go. rewrite Hget, Hdec. simpl.
       repeat split; try done. intros f Hin. by apply list_elem_of_singleton in Hin. }
  destruct (m !! KStr "data") as [v |] eqn:Hdata.
  1: destruct v as [| | | | | data].
  6: { rewrite (updateCtrlConfig_run E registryType repository s t y m data) by done.
       destruct (yaml_Marshal E _) as [out | err].
       - exists [EvGetCommandOutput (getConfigArgs E); EvApplyFromStdin out].
         unfold trace, final, outcome. simpl. repeat split; try done.
         + intros f Hin. apply elem_of_cons in Hin as [[=] | Hin].
           by apply list_elem_of_singleton in Hin.
         + intros Hdone. exists out. split; [done |].
           by destruct (K8sApplyFromStdin E out).
       - exists [EvGetCommandOutput (getConfigArgs E)].
         unfold trace, final, outcome. simpl. repeat split; try done.
         intros f Hin. by apply list_elem_of_singleton in Hin. }
  all: exists [EvGetCommandOutput (getConfigArgs E)];
    unfold updateCtrlConfig; unfold_go; rewrite Hget, Hdec;
    unfold setData; rewrite Hdata; simpl;
    repeat split; try done;
    intros f Hin; by apply list_elem_of_singleton in Hin.
Qed.

(** ** Orchestration *)

(** The run of [UpdateConfigsSecrets] on a selected descriptor with a
    repository. *)
Lemma UpdateConfigsSecrets_run E s t reg repository :
  registries s !! optionToExec s = Some reg ->
  Repository reg = Some repository ->
  UpdateConfigsSecrets E s t =
    match updateCtrlConfig E (Name reg) repository s t with
    | (Done _, _, t') =>
        match Run reg with
        | Some f => let '(o, s') := call_Run E f s in (o, s', t' ++ [EvRun f])
        | None => (Panic (NilDereference NilFunc), s, t')
        end
    | (Exit msg err, s', t') => (Exit msg err, s', t')
    | (Panic p, s', t') => (Panic p, s', t')
    end.
Proof.
  intros Hsel Hrepo.
  destruct (updateCtrlConfig_effects E (Name reg) repository s t)
    as (evs & _ & Hfinal & _).
  unfold UpdateConfigsSecrets. unfold_go.
  rewrite Hsel. cbv beta iota. rewrite Hsel. cbv beta iota. rewrite Hrepo.
  destruct (updateCtrlConfig E (Name reg) repository s t) as [[[[] | |] s1] t1];
    try done.
  unfold final in Hfinal. simpl in Hfinal. subst s1. rewrite Hsel.
  by destruct (Run reg).
Qed.

Lemma UpdateConfigsSecrets_unselected E s t :
  registries s !! optionToExec s = None ->
  UpdateConfigsSecrets E s t = (Panic (NilDereference NilEntry), s, t).
Proof. intros Hsel. unfold UpdateConfigsSecrets. unfold_go. by rewrite Hsel. Qed.

Lemma UpdateConfigsSecrets_no_repository E s t reg :
  registries s !! optionToExec s = Some reg ->
  Repository reg = None ->
  UpdateConfigsSecrets E s t = (Panic (NilDereference NilRepository), s, t).
Proof.
  intros Hsel Hrepo. unfold UpdateConfigsSecrets. unfold_go.
  rewrite Hsel. cbv beta iota. rewrite Hsel. cbv beta iota. by rewrite Hrepo.
Qed.

(** C5. In every run of [UpdateConfigsSecrets], an invocation of [Run] is
    preceded by the whole of a controller-config update, made with the name
    and the repository of the selected descriptor, that returned normally
    (the config map read, the new text applied without error), and nothing
    follows it; and when the update does not return normally, the run ends
    as the update ended, with no invocation of [Run]. *)
Theorem UpdateConfigsSecrets_order (E : Collab) (s : State) :
  let r := UpdateConfigsSecrets E s [] in
  (forall f pre post, trace r = pre ++ EvRun f :: post ->
     exists reg repository out,
       registries s !! optionToExec s = Some reg /\
       Repository reg = Some repository /\
       Run reg = Some f /\
       updateCtrlConfig E (Name reg) repository s [] = (Done tt, s, pre) /\
       pre = [EvGetCommandOutput (getConfigArgs E); EvApplyFromStdin out] /\
       K8sApplyFromStdin E out = None /\
       post = []) /\
  (forall reg repository,
     registries s !! optionToExec s = Some reg ->
     Repository reg = Some repository ->
     outcome (updateCtrlConfig E (Name reg) repository s []) <> Done tt ->
     r = updateCtrlConfig E (Name reg) repository s [] /\
     forall f, EvRun f ∉ trace r).
Proof.
  intros r. subst r. split.
  - intros f pre post Htrace.
    destruct (registries s !! optionToExec s) as [reg |] eqn:Hsel.
    2: { rewrite UpdateConfigsSecrets_unselected in Htrace by done.
         by destruct pre. }
    destruct (Repository reg) as [repository |] eqn:Hrepo.
    2: { rewrite (UpdateConfigsSecrets_no_repository E s [] reg) in Htrace by done.
         by destruct pre. }
    rewrite (UpdateConfigsSecrets_run E s [] reg repository) in Htrace by done.
    destruct (updateCtrlConfig_effects E (Name reg) repository s [])
      as (evs & Hevs & Hfinal & Hnorun & Hdone).
    destruct (updateCtrlConfig E (Name reg) repository s [])
      as [[[[] | |] s1] t1] eqn:Hu;
      unfold trace, final, outcome in *; simpl in *; subst.
    + destruct (Hdone eq_refl) as (out & -> & Happly).
      destruct (Run reg) as [f' |] eqn:Hrun.
      * destruct (call_Run E f' s) as [o s2]. simpl in Htrace.
        destruct pre as [| e1 [| e2 [| e3 pre]]]; simplify_eq/=.
        -- exists reg, repository, out. done.
        -- by destruct pre.
      * simpl in Htrace.
        destruct pre as [| e1 [| e2 [| e3 pre]]]; simplify_eq/=.
    + destruct (Hnorun f). apply elem_of_app. right. by left.
    + destruct (Hnorun f). apply elem_of_app. right. by left.
  - intros reg repository Hsel Hrepo Hfail.
    rewrite (UpdateConfigsSecrets_run E s [] reg repository) by done.
    destruct (updateCtrlConfig_effects E (Name reg) repository s [])
      as (evs & Hevs & _ & Hnorun & _).
    destruct (updateCtrlConfig E (Name reg) repository s []) as [[[[] | |] s1] t1];
      unfold trace, outcome in *; simpl in *; subst; done.
Qed.

(** ** Unchecked steps *)

(** A decoded config map without a mapping under ["data"]: the type assertion
    of [updateCtrlConfig] panics, and the run does not reach
    [HandleErrorAndExit]. *)
Lemma updateCtrlConfig_no_data E registryType repository s t y m :
  GetCommandOutput E (getConfigArgs E) = inl y ->
  yaml_Unmarshal E y = inl m ->
  (forall data, m !! KStr "data" <> Some (VMap data)) ->
  updateCtrlConfig E registryType repository s t =
    (Panic InterfaceConversion, s, t ++ [EvGetCommandOutput (getConfigArgs E)]).
Proof.
  intros Hget Hdec Hdata. unfold updateCtrlConfig.
  rewrite (bind_done _ _ s t tt s (t ++ [EvGetCommandOutput (getConfigArgs E)])) by done.
  rewrite Hget. rewrite (bind_done _ _ _ _ y s _) by done.
  rewrite Hdec. rewrite (bind_done _ _ _ _ m s _) by done.
  apply bind_panic. by apply setData_panics.
Qed.

Lemma built_unselected s : built s -> registries s !! optionToExec s = None.
Proof.
  intros Hb. assert (optionToExec s = 0) as ->.
  { induction Hb as [| s registry t r Hb IH Hadd Hdone]; [done |].
    destruct r as [[o s'] t']. unfold outcome, final in *. simpl in *. subst o.
    by apply add_done_inv in Hadd as (_ & _ & -> & _). }
  destruct (registries s !! 0) as [r |] eqn:Hlk; [| done].
  apply (built_keys s Hb) in Hlk as [? _]. lia.
Qed.

(** C10. When the selection is not a key of the catalog, each of
    [ReadInputsInteractive], [ReadInputsFromFlags], [ValidateFlags] and
    [UpdateConfigsSecrets] panics on the nil catalog entry before doing
    anything else; [UpdateConfigsSecrets] panics as well on a selected
    descriptor whose repository pointer is nil.  A catalog that [add] calls
    built and on which no selection was made is in that case: the initial
    selection is no key of it.  So a selection present in the catalog is
    needed for these panics not to happen. *)
Theorem selection_required (E : Collab) (ro : RangeOrder) (s : State)
    (t : list Event) (flagValues : option (gmap string FlagValue)) :
  (registries s !! optionToExec s = None ->
     ReadInputsInteractive E s t = (Panic (NilDereference NilEntry), s, t) /\
     ReadInputsFromFlags E flagValues s t = (Panic (NilDereference NilEntry), s, t) /\
     ValidateFlags ro flagValues s t = (Panic (NilDereference NilEntry), s, t) /\
     UpdateConfigsSecrets E s t = (Panic (NilDereference NilEntry), s, t)) /\
  (forall reg, registries s !! optionToExec s = Some reg -> Repository reg = None ->
     UpdateConfigsSecrets E s t = (Panic (NilDereference NilRepository), s, t)) /\
  (built s -> registries s !! optionToExec s = None).
Proof.
  split; [| split].
  - intros Hsel.
    unfold ReadInputsInteractive, ReadInputsFromFlags, ValidateFlags,
      UpdateConfigsSecrets.
    unfold_go. by rewrite Hsel.
  - intros reg. apply UpdateConfigsSecrets_no_repository.
  - apply built_unselected.
Qed.

(** ** The scenario of the specification, run *)

Lemma no_missingb_sound required fv :
  no_missingb required fv = true -> forall flg, ~ missing_required required fv flg.
Proof.
  unfold no_missingb. rewrite forallb_forall. intros Hall flg [Hm Hp].
  apply marked_lookup, elem_of_map_to_list, list_elem_of_In in Hm.
  specialize (Hall _ Hm). simpl in Hall. by rewrite Hp in Hall.
Qed.

Lemma no_unsupportedb_sound required optional fv :
  no_unsupportedb required optional fv = true ->
  forall flg, ~ unsupported required optional fv flg.
Proof.
  unfold no_unsupportedb. rewrite forallb_forall. intros Hall flg Hun.
  destruct (unsupported_entry required optional fv flg Hun) as (v & Hlk & Hadd).
  apply elem_of_map_to_list, list_elem_of_In in Hlk.
  specialize (Hall _ Hlk). simpl in Hall. by rewrite Hadd in Hall.
Qed.

(** [add] on the empty catalog: a descriptor with option 0 is refused, one
    with option 1 is registered. *)
Lemma add_contract_witness :
  (exists msg err, add (Some unnumbered) initState [] = (Exit msg err, initState, [])) /\
  (exists s', add (Some dockerHub) initState [] = (Done tt, s', []) /\
     registries s' !! 1 = Some dockerHub /\
     (forall k, k <> 1 -> registries s' !! k = registries initState !! k) /\
     optionToExec s' = optionToExec initState) /\
  positive_unique_options initState.
Proof.
  split; [| split].
  - apply (add_contract unnumbered initState []). left. reflexivity.
  - apply (add_contract dockerHub initState []); reflexivity.
  - apply (add_contract dockerHub initState []). apply built_init.
Defined.

(** [SetRegistry] on the catalog of the scenario, with a name that is there
    and one that is not. *)
Lemma SetRegistry_contract_witness :
  (exists k r, registries catalog1 !! k = Some r /\ Name r = "docker-hub"%string /\
     SetRegistry order_rev "docker-hub" catalog1 [] =
       (Done tt, {| registries := registries catalog1; optionToExec := k |}, [])) /\
  SetRegistry order_rev "x" chosen1 [] =
    (Exit ("Invalid registry type: " +:+ "x") None, chosen1, []).
Proof.
  split.
  - apply (SetRegistry_contract order_rev "docker-hub" catalog1 []).
    exists 1, dockerHub. split; reflexivity.
  - apply (SetRegistry_contract order_rev "x" chosen1 []).
    intros k r Hlk. unfold chosen1 in Hlk. cbn [registries] in Hlk.
    apply lookup_insert_Some in Hlk as [[_ <-] | [_ Hlk]].
    + discriminate.
    + by rewrite lookup_empty in Hlk.
Defined.

(** With one descriptor registered, the response 1 is stored and the
    response 2 ends the run. *)
Lemma ChooseRegistryInteractive_selection_witness :
  (outcome (ChooseRegistryInteractive (double configMap (Answer 1) None) order_rev catalog1 [])
     = Done tt /\
   final (ChooseRegistryInteractive (double configMap (Answer 1) None) order_rev catalog1 [])
     = {| registries := registries catalog1; optionToExec := 1 |}) /\
  (exists err,
     outcome (ChooseRegistryInteractive (double configMap (Answer 2) None) order_rev chosen1 [])
       = Exit "Error reading registry type" (Some err) /\
     final (ChooseRegistryInteractive (double configMap (Answer 2) None) order_rev chosen1 [])
       = chosen1).
Proof.
  split.
  - pose proof (ChooseRegistryInteractive_selection
                  (double configMap (Answer 1) None) order_rev catalog1 [])
      as (_ & Hin & _).
    apply (Hin 1).
    + reflexivity.
    + vm_compute. split; discriminate.
  - pose proof (ChooseRegistryInteractive_selection
                  (double configMap (Answer 2) None) order_rev chosen1 [])
      as (_ & _ & Hout).
    apply Hout.
    intros n [= <-]. vm_compute. intros [_ Hle]. by apply Hle.
Defined.

(** The listing of three descriptors registered as 3, 1, 2. *)
Example listing_of_catalog3 :
  trace (ChooseRegistryInteractive (double configMap (Answer 3) None) order_id catalog3 []) =
    [EvPrintln "Choose registry type:";
     EvPrintf ("%d: %s" +:+ nl) [IInt 1; IStr "Docker Hub"];
     EvPrintf ("%d: %s" +:+ nl) [IInt 2; IStr "Amazon ECR"];
     EvPrintf ("%d: %s" +:+ nl) [IInt 3; IStr "Harbor"];
     EvReadOption "Choose a number" 1 3 true].
Proof. vm_compute. reflexivity. Qed.

(** The three flag maps of the scenario: username alone; username, password
    and d; username and password. *)
Lemma ValidateFlags_outcomes_witness :
  (exists flg, missing_required (<["username" := true]> (<["password" := true]> ∅))
                 flags_username flg /\
     ValidateFlags order_rev (Some flags_username) chosen1 [] =
       (Exit (missing_msg flg) None, chosen1, [])) /\
  (exists flg, unsupported (<["username" := true]> (<["password" := true]> ∅))
                 (<["url" := true]> ∅) flags_extra flg /\
     ValidateFlags order_rev (Some flags_extra) chosen1 [] =
       (Exit (unsupported_msg flg) None, chosen1, [])) /\
  ValidateFlags order_rev (Some flags_both) chosen1 [] = (Done tt, chosen1, []).
Proof.
  split; [| split].
  - apply (ValidateFlags_outcomes order_rev chosen1 [] dockerHub _
             (<["url" := true]> ∅) flags_username); try reflexivity.
    exists "password"%string. split; reflexivity.
  - apply (ValidateFlags_outcomes order_rev chosen1 [] dockerHub _ _ flags_extra);
      try reflexivity.
    + apply no_missingb_sound. reflexivity.
    + exists "d"%string. repeat split; reflexivity.
  - apply (ValidateFlags_outcomes order_rev chosen1 [] dockerHub
             (<["username" := true]> (<["password" := true]> ∅))
             (<["url" := true]> ∅) flags_both); try reflexivity.
    + apply no_missingb_sound. reflexivity.
    + apply no_unsupportedb_sound. reflexivity.
Defined.

(** A flag map without the required flags and with the unknown flag d. *)
Lemma ValidateFlags_missing_preempts_witness :
  (exists flg, missing_required (<["username" := true]> (<["password" := true]> ∅))
                 flags_only_extra flg /\
     ValidateFlags order_id (Some flags_only_extra) chosen1 [] =
       (Exit (missing_msg flg) None, chosen1, [])) /\
  (forall flg err,
     outcome (ValidateFlags order_id (Some flags_only_extra) chosen1 [])
       <> Exit (unsupported_msg flg) err).
Proof.
  apply (ValidateFlags_missing_preempts order_id chosen1 [] dockerHub _
           (<["url" := true]> ∅) flags_only_extra); try reflexivity.
  - exists "password"%string. split; reflexivity.
  - exists "d"%string. repeat split; reflexivity.
Defined.

(** The update of a config map whose [data] has a registry type and a
    replica count. *)
Lemma updateCtrlConfig_frame_witness :
  let E := double configMap (Answer 1) None in
  let m' := updatedConfig E configMap configData "docker-hub" "wso2" in
  (exists data' : gmap ykey yval,
     m' !! KStr "data" = Some (VMap data') /\
     data' !! KStr "repository" = Some (VStr "wso2") /\
     data' !! KStr "registryType" = Some (VStr "docker-hub") /\
     data' !! KStr "replicas" = configData !! KStr "replicas") /\
  m' !! KStr "kind" = configMap !! KStr "kind" /\
  updateCtrlConfig E "docker-hub" "wso2" chosen1 [] =
    (Done tt, chosen1,
     [EvGetCommandOutput (getConfigArgs E);
      EvApplyFromStdin "kind: ConfigMap # updated"]).
Proof.
  intros E m'.
  pose proof (updateCtrlConfig_frame E "docker-hub" "wso2" chosen1 []
                "kind: ConfigMap" configMap configData
                eq_refl eq_refl eq_refl)
    as (Hdata & Hrepo & Htype & Hframe & Hout & Hrun).
  split; [| split].
  - eexists. split; [exact Hdata |]. split; [exact Hrepo |].
    split; [apply Htype; discriminate | apply Hframe; discriminate].
  - apply Hout. discriminate.
  - exact Hrun.
Defined.

(** A run in which the update is applied and [Run] follows, and one in which
    applying fails. *)
Lemma UpdateConfigsSecrets_order_witness :
  (exists reg repository out,
     registries chosen1 !! optionToExec chosen1 = Some reg /\
     Repository reg = Some repository /\
     Run reg = Some 1%nat /\
     updateCtrlConfig (double configMap (Answer 1) None) (Name reg) repository chosen1 [] =
       (Done tt, chosen1,
        [EvGetCommandOutput (getConfigArgs (double configMap (Answer 1) None));
         EvApplyFromStdin "kind: ConfigMap # updated"]) /\
     [EvGetCommandOutput (getConfigArgs (double configMap (Answer 1) None));
      EvApplyFromStdin "kind: ConfigMap # updated"] =
       [EvGetCommandOutput (getConfigArgs (double configMap (Answer 1) None));
        EvApplyFromStdin out] /\
     K8sApplyFromStdin (double configMap (Answer 1) None) out = None /\
     @nil Event = []) /\
  (UpdateConfigsSecrets (double configMap (Answer 1) (Some "forbidden"%string)) chosen1 [] =
     updateCtrlConfig (double configMap (Answer 1) (Some "forbidden"%string))
       "docker-hub" "wso2" chosen1 [] /\
   forall f,
     EvRun f ∉ trace (UpdateConfigsSecrets
                        (double configMap (Answer 1) (Some "forbidden"%string)) chosen1 [])).
Proof.
  split.
  - pose proof (UpdateConfigsSecrets_order (double configMap (Answer 1) None) chosen1)
      as (Hbefore & _).
    apply (Hbefore 1%nat
             [EvGetCommandOutput (getConfigArgs (double configMap (Answer 1) None));
              EvApplyFromStdin "kind: ConfigMap # updated"] []).
    reflexivity.
  - pose proof (UpdateConfigsSecrets_order
                  (double configMap (Answer 1) (Some "forbidden"%string)) chosen1)
      as (_ & Hfail).
    apply (Hfail dockerHub "wso2"%string); try reflexivity.
    vm_compute. discriminate.
Defined.

(** C9. On a controller config map that decodes to a mapping without [data],
    [updateCtrlConfig] ends in a panic of the type assertion, after the read
    of the config map and without a call of [HandleErrorAndExit]. *)
Theorem updateCtrlConfig_panics_without_data :
  updateCtrlConfig (double configMapNoData (Answer 1) None) "docker-hub" "wso2" chosen1 [] =
    (Panic InterfaceConversion, chosen1,
     [EvGetCommandOutput (getConfigArgs (double configMapNoData (Answer 1) None))]).
Proof.
  apply (updateCtrlConfig_no_data (double configMapNoData (Answer 1) None)
           "docker-hub" "wso2" chosen1 [] "kind: ConfigMap" configMapNoData);
    try reflexivity.
  intros data. vm_compute. discriminate.
Qed.

(** The four operations with nothing selected, and [UpdateConfigsSecrets]
    on a descriptor without repository. *)
Lemma selection_required_witness :
  (ReadInputsInteractive (double configMap (Answer 1) None) catalog1 [] =
     (Panic (NilDereference NilEntry), catalog1, []) /\
   ReadInputsFromFlags (double configMap (Answer 1) None) (Some flags_both) catalog1 [] =
     (Panic (NilDereference NilEntry), catalog1, []) /\
   ValidateFlags order_id (Some flags_both) catalog1 [] =
     (Panic (NilDereference NilEntry), catalog1, []) /\
   UpdateConfigsSecrets (double configMap (Answer 1) None) catalog1 [] =
     (Panic (NilDereference NilEntry), catalog1, [])) /\
  UpdateConfigsSecrets (double configMap (Answer 1) None) catalog3 [] =
    (Panic (NilDereference NilRepository), catalog3, []) /\
  registries catalog1 !! optionToExec catalog1 = None.
Proof.
  split; [| split].
  - apply (selection_required (double configMap (Answer 1) None) order_id catalog1 []
             (Some flags_both)).
    reflexivity.
  - pose proof (selection_required (double configMap (Answer 1) None) order_id
                  catalog3 [] None) as (_ & Hrepo & _).
    apply (Hrepo amazonECR); reflexivity.
  - apply (selection_required (double configMap (Answer 1) None) order_id catalog1 []
             None).
    apply (built_add initState dockerHub [] _ built_init eq_refl eq_refl).
Defined.

(** ** Corner cases of the scenario *)

(** A flag listed with the mark [false] is no member of the set: it is not
    required, and providing it is refused unless it is optional. *)
Example false_mark_not_required :
  ValidateFlags order_id (Some ∅) chosenQuay [] = (Done tt, chosenQuay, []).
Proof. reflexivity. Qed.

Example false_mark_not_supported :
  ValidateFlags order_id (Some (<["token" := flag true]> ∅)) chosenQuay [] =
    (Exit (unsupported_msg "token") None, chosenQuay, []).
Proof. reflexivity. Qed.

(** The range of the prompt is [1, count], not the keys of the catalog: with
    options 1 and 3 registered, the response 2 is stored, and no descriptor
    is registered under it. *)
Example selection_in_range_not_registered :
  let r := ChooseRegistryInteractive (double configMap (Answer 2) None) order_id
             catalogGap [] in
  outcome r = Done tt /\ optionToExec (final r) = 2 /\
  registries (final r) !! optionToExec (final r) = None.
Proof. vm_compute. done. Qed.

(** ** Further properties of catalog registration *)

Lemma add_positive_exit r s t :
  Option r < 1 ->
  add (Some r) s t =
    (Exit ("Error adding registry: " +:+ Name r)
       (Some "'option' should be positive"%string), s, t).
Proof. intros Hlt. unfold add. run. by case_bool_decide. Qed.

Lemma add_duplicate_exit r s t :
  1 <= Option r -> is_Some (registries s !! Option r) ->
  add (Some r) s t =
    (Exit ("Error adding registry" +:+ Name r)
       (Some "duplicate 'options' values"%string), s, t).
Proof.
  intros Hpos Hocc. unfold add. run.
  case_bool_decide; [lia |]. by case_bool_decide.
Qed.

(** X1. The two refusals of [add] with their messages: the check of the option
    comes first and decides alone when it fails, even on an occupied slot;
    the message of the duplicate check joins the name without a separator.
    A nil descriptor makes [add] panic.  The package state and the trace are
    never touched. *)
Theorem add_refusals (r : Registry) (s : State) (t : list Event) :
  (Option r < 1 ->
     add (Some r) s t =
       (Exit ("Error adding registry: " +:+ Name r)
          (Some "'option' should be positive"%string), s, t)) /\
  (1 <= Option r -> is_Some (registries s !! Option r) ->
     add (Some r) s t =
       (Exit ("Error adding registry" +:+ Name r)
          (Some "duplicate 'options' values"%string), s, t)) /\
  add None s t = (Panic (NilDereference NilRegistry), s, t).
Proof.
  split; [apply add_positive_exit |]. split; [apply add_duplicate_exit | done].
Qed.

(** An option of zero is refused for being not positive, whatever the catalog
    holds; a second descriptor with option 1 is refused as a duplicate. *)
Lemma add_refusals_witness :
  add (Some unnumbered) chosen1 [] =
    (Exit "Error adding registry: unnumbered"
       (Some "'option' should be positive"%string), chosen1, []) /\
  add (Some quay) chosen1 [] =
    (Exit "Error adding registryquay"
       (Some "duplicate 'options' values"%string), chosen1, []).
Proof.
  split.
  - apply (add_refusals unnumbered chosen1 []). reflexivity.
  - apply (add_refusals quay chosen1 []).
    + vm_compute. discriminate.
    + vm_compute. by eexists.
Defined.

Lemma addBoth_done_inv r1 r2 s t s' t' :
  addBoth r1 r2 s t = (Done tt, s', t') ->
  1 <= Option r1 /\ 1 <= Option r2 /\ Option r1 <> Option r2 /\
  registries s !! Option r1 = None /\ registries s !! Option r2 = None /\
  s' = {| registries := <[Option r2 := r2]> (<[Option r1 := r1]> (registries s));
          optionToExec := optionToExec s |} /\ t' = t.
Proof.
  unfold addBoth, bind. intros Hrun.
  destruct (add (Some r1) s t) as [[[[] | |] s1] t1] eqn:H1; try done.
  apply add_done_inv in H1 as (Hp1 & Hf1 & -> & ->).
  apply add_done_inv in Hrun as (Hp2 & Hf2 & -> & ->). simpl in *.
  assert (Option r1 <> Option r2) as Hne.
  { intros Heq. rewrite <- Heq, lookup_insert_eq in Hf2. done. }
  rewrite lookup_insert_ne in Hf2 by done. done.
Qed.

Lemma addBoth_done r1 r2 s t :
  1 <= Option r1 -> 1 <= Option r2 -> Option r1 <> Option r2 ->
  registries s !! Option r1 = None -> registries s !! Option r2 = None ->
  addBoth r1 r2 s t =
    (Done tt,
     {| registries := <[Option r2 := r2]> (<[Option r1 := r1]> (registries s));
        optionToExec := optionToExec s |}, t).
Proof.
  intros Hp1 Hp2 Hne Hf1 Hf2. unfold addBoth.
  erewrite bind_done by (by apply add_accepts).
  rewrite add_accepts; [done | done |]. simpl. by rewrite lookup_insert_ne.
Qed.

(** X2. Registration does not depend on the order of the calls: when two
    descriptors are accepted one after the other, they are accepted in the
    other order as well, and the catalog is the same. *)
Theorem add_order_irrelevant (r1 r2 : Registry) (s : State) (t : list Event) :
  outcome (addBoth r1 r2 s t) = Done tt ->
  addBoth r2 r1 s t = addBoth r1 r2 s t.
Proof.
  intros Hdone.
  destruct (addBoth r1 r2 s t) as [[o s'] t'] eqn:Hrun.
  unfold outcome in Hdone. simpl in Hdone. subst o.
  apply addBoth_done_inv in Hrun as (Hp1 & Hp2 & Hne & Hf1 & Hf2 & -> & ->).
  rewrite addBoth_done by done.
  by rewrite insert_insert_ne.
Qed.

(** Docker Hub and Harbor, registered in both orders. *)
Lemma add_order_irrelevant_witness :
  addBoth harbor dockerHub initState [] = addBoth dockerHub harbor initState [].
Proof. apply (add_order_irrelevant dockerHub harbor initState []). reflexivity. Defined.

Lemma add_done_size r s t s' t' :
  add (Some r) s t = (Done tt, s', t') ->
  size (registries s') = S (size (registries s)).
Proof.
  intros Hrun. apply add_done_inv in Hrun as (_ & Hfree & -> & _). simpl.
  by apply map_size_insert_None.
Qed.

(** X3. Registration is permanent: whatever [add] calls follow and succeed, a
    descriptor found under an option stays there unchanged, the selection is
    not touched, and each successful call makes the catalog one larger. *)
Theorem add_permanent (s s' : State) :
  grows s s' ->
  (forall k r, registries s !! k = Some r -> registries s' !! k = Some r) /\
  optionToExec s' = optionToExec s /\
  (size (registries s) <= size (registries s'))%nat /\
  (forall registry t s'' t'',
     add (Some registry) s' t = (Done tt, s'', t'') ->
     size (registries s'') = S (size (registries s'))).
Proof.
  intros Hg. split; [| split; [| split]].
  - induction Hg as [| s s' registry t r Hg IH Hadd Hdone]; [done |].
    intros k r0 Hlk. destruct r as [[o s''] t'']. unfold outcome, final in *.
    simpl in *. subst o. apply add_done_inv in Hadd as (_ & Hfree & -> & _).
    simpl. specialize (IH k r0 Hlk).
    rewrite lookup_insert_ne; [done |]. intros <-. congruence.
  - induction Hg as [| s s' registry t r Hg IH Hadd Hdone]; [done |].
    destruct r as [[o s''] t'']. unfold outcome, final in *.
    simpl in *. subst o. by apply add_done_inv in Hadd as (_ & _ & -> & _).
  - induction Hg as [| s s' registry t r Hg IH Hadd Hdone]; [done |].
    destruct r as [[o s''] t'']. unfold outcome, final in *.
    simpl in *. subst o. apply add_done_size in Hadd. lia.
  - intros registry t s'' t''. apply add_done_size.
Qed.

(** Docker Hub stays registered when Harbor is added after it. *)
Lemma add_permanent_witness :
  registries (final (add (Some harbor) catalog1 [])) !! 1 = Some dockerHub /\
  optionToExec (final (add (Some harbor) catalog1 [])) = optionToExec catalog1.
Proof.
  pose proof (add_permanent catalog1 (final (add (Some harbor) catalog1 []))
                (grows_add catalog1 catalog1 harbor [] _
                   (grows_refl catalog1) eq_refl eq_refl))
    as (Hkeep & Hsel & _).
  split; [apply Hkeep; reflexivity | exact Hsel].
Defined.

(** ** Further properties of the selection *)

Lemma scanRegistries_frame kvs name s t :
  registries (final (scanRegistries kvs name s t)) = registries s /\
  trace (scanRegistries kvs name s t) = t.
Proof.
  induction kvs as [| [opt reg] rest IH]; [done |].
  simpl. by case_bool_decide.
Qed.

(** X4. Neither way of selecting changes the catalog, however the run ends, and
    [SetRegistry] makes no call to the outside. *)
Theorem selection_keeps_catalog (E : Collab) (ro : RangeOrder) (name : string)
    (s : State) (t : list Event) :
  registries (final (SetRegistry ro name s t)) = registries s /\
  trace (SetRegistry ro name s t) = t /\
  registries (final (ChooseRegistryInteractive E ro s t)) = registries s.
Proof.
  split; [| split].
  - apply (scanRegistries_frame _ name s t).
  - apply (scanRegistries_frame _ name s t).
  - rewrite ChooseRegistryInteractive_run.
    destruct (response E) as [n | text | e]; try done.
    by destruct (bool_decide (1 <= n) && _).
Qed.

Lemma scanRegistries_unique kvs name s t k r :
  (k, r) ∈ kvs -> Name r = name ->
  (forall k' r', (k', r') ∈ kvs -> Name r' = name -> k' = k) ->
  scanRegistries kvs name s t =
    (Done tt, {| registries := registries s; optionToExec := k |}, t).
Proof.
  intros Hin Hname Huniq.
  destruct (scanRegistries_found kvs name s t) as (k' & r' & Hin' & Hname' & ->);
    [by eauto |].
  by rewrite (Huniq k' r' Hin' Hname').
Qed.

(** X5. When one option only carries the name, [SetRegistry] stores that option
    for every order of the scan; a second call with the name changes nothing
    more. *)
Theorem SetRegistry_unique_name (ro : RangeOrder) (name : string) (s : State)
    (t : list Event) (k : Z) (r : Registry) :
  registries s !! k = Some r ->
  Name r = name ->
  (forall k' r', registries s !! k' = Some r' -> Name r' = name -> k' = k) ->
  SetRegistry ro name s t =
    (Done tt, {| registries := registries s; optionToExec := k |}, t) /\
  (SetRegistry ro name ;; SetRegistry ro name) s t = SetRegistry ro name s t.
Proof.
  intros Hlk Hname Huniq.
  assert (forall s0 t0, registries s0 = registries s ->
            SetRegistry ro name s0 t0 =
              (Done tt, {| registries := registries s; optionToExec := k |}, t0))
    as Hrun.
  { intros s0 t0 Hreg. unfold SetRegistry. unfold_go. rewrite Hreg.
    erewrite (scanRegistries_unique _ name s0 t0 k r); [by rewrite Hreg | | done |].
    - by apply elem_of_range_registries.
    - intros k' r' Hin. apply elem_of_range_registries in Hin. by apply Huniq. }
  split; [by apply Hrun |].
  erewrite bind_done by (by apply Hrun). rewrite !Hrun; done.
Qed.

(** The scenario: the name of Docker Hub is carried by option 1 alone. *)
Lemma SetRegistry_unique_name_witness :
  SetRegistry order_rev "docker-hub" catalog1 [] = (Done tt, chosen1, []).
Proof.
  apply (SetRegistry_unique_name order_rev "docker-hub" catalog1 [] 1 dockerHub);
    try reflexivity.
  intros k' r' Hlk _. unfold catalog1 in Hlk. cbn [registries] in Hlk.
  apply lookup_insert_Some in Hlk as [[<- _] | [_ Hlk]]; [done |].
  by rewrite lookup_empty in Hlk.
Defined.

(** X7. Registration followed by selection by name: a descriptor that [add]
    accepts, and whose name no registered descriptor has, is the one that
    [SetRegistry] selects under its name. *)
Theorem add_then_SetRegistry (ro : RangeOrder) (r : Registry) (s : State)
    (t : list Event) :
  0 < Option r ->
  registries s !! Option r = None ->
  (forall k r', registries s !! k = Some r' -> Name r' <> Name r) ->
  let after := (add (Some r) ;; SetRegistry ro (Name r)) s t in
  outcome after = Done tt /\
  optionToExec (final after) = Option r /\
  registries (final after) !! optionToExec (final after) = Some r /\
  trace after = t.
Proof.
  intros Hpos Hfree Hfresh after. subst after.
  erewrite bind_done by (apply add_accepts; [lia | done]).
  unfold SetRegistry. unfold_go. cbn [registries].
  erewrite (scanRegistries_unique _ (Name r) _ t (Option r) r); [| | done |].
  - simpl. by rewrite lookup_insert_eq.
  - apply elem_of_range_registries, lookup_insert_eq.
  - intros k' r' Hin Hname. apply elem_of_range_registries in Hin.
    apply lookup_insert_Some in Hin as [[<- _] | [_ Hin]]; [done |].
    exfalso. by apply (Hfresh k' r' Hin).
Qed.

(** Harbor, registered beside Docker Hub and selected by its name. *)
Lemma add_then_SetRegistry_witness :
  let after := (add (Some harbor) ;; SetRegistry order_id "harbor") catalog1 [] in
  outcome after = Done tt /\
  optionToExec (final after) = 3 /\
  registries (final after) !! optionToExec (final after) = Some harbor /\
  trace after = [].
Proof.
  apply (add_then_SetRegistry order_id harbor catalog1 []); try reflexivity.
  intros k r' Hlk. unfold catalog1 in Hlk. cbn [registries] in Hlk.
  apply lookup_insert_Some in Hlk as [[_ <-] | [_ Hlk]]; [discriminate |].
  by rewrite lookup_empty in Hlk.
Defined.

(** X8. The prompt offers [1, count].  When the options of the catalog are exactly
    1 to count, every selection that [ChooseRegistryInteractive] stores is a
    registered option; when an option within the range is not registered,
    the response naming it is stored all the same and selects no descriptor. *)
Theorem ChooseRegistryInteractive_registered (E : Collab) (ro : RangeOrder)
    (s : State) (t : list Event) :
  let count := Z.of_nat (size (registries s)) in
  let r := ChooseRegistryInteractive E ro s t in
  ((forall k, 1 <= k <= count -> is_Some (registries s !! k)) ->
   outcome r = Done tt ->
   is_Some (registries (final r) !! optionToExec (final r))) /\
  (forall k, 1 <= k <= count -> registries s !! k = None ->
   response E = Answer k ->
   outcome r = Done tt /\ optionToExec (final r) = k /\
   registries (final r) !! optionToExec (final r) = None).
Proof.
  intros count r. subst r. rewrite ChooseRegistryInteractive_run. fold count.
  split.
  - intros Hall. destruct (response E) as [n | text | e]; try done.
    destruct (decide (1 <= n <= count)) as [Hin | Hout].
    + rewrite !bool_decide_eq_true_2 by lia. simpl. intros _. by apply Hall.
    + assert (bool_decide (1 <= n) && bool_decide (n <= count) = false) as ->; [| done].
      apply andb_false_iff. rewrite !bool_decide_eq_false. lia.
  - intros k Hin Hnone ->. by rewrite !bool_decide_eq_true_2 by lia.
Qed.

(** With Docker Hub alone the stored selection is registered; with options 1
    and 3 the response 2 selects nothing. *)
Lemma ChooseRegistryInteractive_registered_witness :
  is_Some (registries (final (ChooseRegistryInteractive
                                (double configMap (Answer 1) None) order_id catalog1 []))
             !! optionToExec (final (ChooseRegistryInteractive
                                (double configMap (Answer 1) None) order_id catalog1 []))) /\
  registries (final (ChooseRegistryInteractive
                       (double configMap (Answer 2) None) order_id catalogGap []))
    !! optionToExec (final (ChooseRegistryInteractive
                       (double configMap (Answer 2) None) order_id catalogGap [])) = None.
Proof.
  split.
  - pose proof (ChooseRegistryInteractive_registered
                  (double configMap (Answer 1) None) order_id catalog1 [])
      as (Hall & _).
    apply Hall; [| reflexivity].
    intros k Hk.
    assert (Z.of_nat (size (registries catalog1)) = 1) as Hsize by reflexivity.
    rewrite Hsize in Hk. assert (k = 1) as -> by lia. by eexists.
  - pose proof (ChooseRegistryInteractive_registered
                  (double configMap (Answer 2) None) order_id catalogGap [])
      as (_ & Hgap).
    apply (Hgap 2); try reflexivity. vm_compute. split; discriminate.
Defined.

(** X9. With nothing registered the listing is the heading alone and the prompt
    offers the empty range [1, 0]: the run ends in the fatal error whatever
    the user responds. *)
Theorem ChooseRegistryInteractive_empty (E : Collab) (ro : RangeOrder)
    (s : State) (t : list Event) :
  registries s = ∅ ->
  exists err,
    ChooseRegistryInteractive E ro s t =
      (Exit "Error reading registry type" (Some err), s,
       t ++ [EvPrintln "Choose registry type:";
             EvReadOption "Choose a number" 1 0 true]).
Proof.
  intros Hempty. rewrite ChooseRegistryInteractive_run, Hempty.
  assert (sortedEntries (∅ : gmap Z Registry) = []) as -> by reflexivity.
  rewrite map_size_empty. change (Z.of_nat 0) with 0.
  unfold listing, prompt. cbn [map app Z.of_nat].
  destruct (response E) as [n | text | e]; try by eexists.
  assert (bool_decide (1 <= n) && bool_decide (n <= 0) = false) as ->.
  { apply andb_false_iff. rewrite !bool_decide_eq_false. lia. }
  by eexists.
Qed.

(** The start of the program, before any registration. *)
Lemma ChooseRegistryInteractive_empty_witness :
  exists err,
    ChooseRegistryInteractive (double configMap (Answer 1) None) order_id initState [] =
      (Exit "Error reading registry type" (Some err), initState,
       [EvPrintln "Choose registry type:";
        EvReadOption "Choose a number" 1 0 true]).
Proof.
  apply (ChooseRegistryInteractive_empty (double configMap (Answer 1) None)
           order_id initState []).
  reflexivity.
Defined.

(** ** Further properties of flag validation *)

Lemma checkRequired_frame kvs flagsValues s t :
  final (checkRequired kvs flagsValues s t) = s /\
  trace (checkRequired kvs flagsValues s t) = t.
Proof.
  induction kvs as [| [flg b] rest IH]; [done |].
  cbn [checkRequired]. destruct b; [| exact IH].
  destruct flagsValues as [fv |]; [| done].
  run. by destruct (IsProvided (index_flag fv flg)).
Qed.

Lemma checkAdditional_frame kvs s t :
  final (checkAdditional kvs s t) = s /\ trace (checkAdditional kvs s t) = t.
Proof.
  induction kvs as [| [flg v] rest IH]; [done |].
  assert (checkAdditional ((flg, v) :: rest) s t = checkAdditional rest s t \/
          exists o, checkAdditional ((flg, v) :: rest) s t = (o, s, t)) as Hstep.
  { cbn [checkAdditional]. destruct (IsProvided v); [| by left].
    clear IH. unfold_go.
    destruct (registries s !! optionToExec s) as [reg |] eqn:Hsel;
      [| right; by eexists].
    cbv beta iota.
    destruct (RequiredFlags (Flags_ reg)) as [required |]; [| right; by eexists].
    cbv beta iota.
    destruct (index_bool required flg); [by left |].
    cbn [negb]. cbv beta iota. rewrite Hsel. cbv beta iota.
    destruct (OptionalFlags (Flags_ reg)) as [optional |]; [| right; by eexists].
    cbv beta iota.
    destruct (index_bool optional flg); [by left | right; by eexists]. }
  destruct Hstep as [-> | [o ->]]; [exact IH | done].
Qed.

(** X10. [ValidateFlags] only inspects: however it ends (normal return, fatal
    error or panic, nil pointers included), the package state is as before
    and no call to the outside was made. *)
Theorem ValidateFlags_inspects_only (ro : RangeOrder)
    (flagsValues : option (gmap string FlagValue)) (s : State) (t : list Event) :
  final (ValidateFlags ro flagsValues s t) = s /\
  trace (ValidateFlags ro flagsValues s t) = t.
Proof.
  unfold ValidateFlags. unfold_go.
  destruct (registries s !! optionToExec s) as [reg |]; [| done].
  cbv beta iota.
  destruct (RequiredFlags (Flags_ reg)) as [required |]; [| done].
  cbv beta iota.
  pose proof (checkRequired_frame (range_required ro (map_to_list required))
                flagsValues s t) as [Hs Ht].
  destruct (checkRequired _ flagsValues s t) as [[[[] | |] s1] t1];
    unfold final, trace in Hs, Ht; simpl in Hs, Ht; subst; try done.
  destruct flagsValues as [fv |]; [| done].
  apply checkAdditional_frame.
Qed.

Lemma checkRequired_nil kvs s t :
  checkRequired kvs None s t =
    if existsb snd kvs
    then (Panic (NilDereference NilFlagValues), s, t)
    else (Done tt, s, t).
Proof.
  induction kvs as [| [flg b] rest IH]; [done |].
  cbn [checkRequired]. destruct b; [done |]. exact IH.
Qed.

Section NoOptional.

Variables (s : State) (reg : Registry) (required : gmap string bool).
Hypothesis Hsel : registries s !! optionToExec s = Some reg.
Hypothesis Hreq : RequiredFlags (Flags_ reg) = Some required.
Hypothesis Hopt : OptionalFlags (Flags_ reg) = None.

Lemma checkAdditional_cons_nil flg flgVal rest t :
  checkAdditional ((flg, flgVal) :: rest) s t =
    if IsProvided flgVal && negb (marked required flg)
    then (Panic (NilDereference NilOptionalFlags), s, t)
    else checkAdditional rest s t.
Proof.
  cbn [checkAdditional]. unfold marked.
  destruct (IsProvided flgVal); [| done].
  unfold_go. rewrite Hsel, Hreq.
  destruct (index_bool required flg); [done |].
  cbn [negb andb]. by rewrite Hsel, Hopt.
Qed.

Lemma checkAdditional_nil_found kvs t :
  (exists flg v, (flg, v) ∈ kvs /\ IsProvided v = true /\ marked required flg = false) ->
  checkAdditional kvs s t = (Panic (NilDereference NilOptionalFlags), s, t).
Proof.
  induction kvs as [| [flg v] rest IH]; intros (f & w & Hin & Hp & Hm).
  - by apply elem_of_nil in Hin.
  - rewrite checkAdditional_cons_nil.
    destruct (IsProvided v && negb (marked required flg)) eqn:Hhd; [done |].
    apply elem_of_cons in Hin as [[= <- <-] | Hin].
    + by rewrite Hp, Hm in Hhd.
    + apply IH. by eauto.
Qed.

Lemma checkAdditional_nil_ok kvs t :
  (forall flg v, (flg, v) ∈ kvs -> IsProvided v = true -> marked required flg = true) ->
  checkAdditional kvs s t = (Done tt, s, t).
Proof.
  induction kvs as [| [flg v] rest IH]; intros Hall; [done |].
  rewrite checkAdditional_cons_nil.
  destruct (IsProvided v) eqn:Hp.
  - rewrite (Hall flg v) by (done || by left). simpl.
    apply IH. intros g u Hg. apply (Hall g u). by right.
  - simpl. apply IH. intros g u Hg. apply (Hall g u). by right.
Qed.

End NoOptional.

(** X11. Nil pointers met by [ValidateFlags] on a selected descriptor.  A nil map
    of required flags and a nil flag map always panic.  A nil map of optional
    flags is reached only by a provided flag that is not required: without
    such a flag the validation returns normally, with one it panics (no
    required flag being missing). *)
Theorem ValidateFlags_nil_maps (ro : RangeOrder) (s : State) (t : list Event)
    (reg : Registry) :
  registries s !! optionToExec s = Some reg ->
  (RequiredFlags (Flags_ reg) = None ->
     forall flagsValues,
       ValidateFlags ro flagsValues s t =
         (Panic (NilDereference NilRequiredFlags), s, t)) /\
  (forall required, RequiredFlags (Flags_ reg) = Some required ->
     ValidateFlags ro None s t = (Panic (NilDereference NilFlagValues), s, t)) /\
  (forall required fv,
     RequiredFlags (Flags_ reg) = Some required ->
     OptionalFlags (Flags_ reg) = None ->
     (forall flg, ~ missing_required required fv flg) ->
     ((forall flg, is_provided fv flg = true -> marked required flg = true) ->
        ValidateFlags ro (Some fv) s t = (Done tt, s, t)) /\
     ((exists flg, is_provided fv flg = true /\ marked required flg = false) ->
        ValidateFlags ro (Some fv) s t =
          (Panic (NilDereference NilOptionalFlags), s, t))).
Proof.
  intros Hsel. split; [| split].
  - intros Hreq fv. unfold ValidateFlags. unfold_go. by rewrite Hsel, Hreq.
  - intros required Hreq. unfold ValidateFlags. unfold_go. rewrite Hsel, Hreq.
    rewrite checkRequired_nil. by destruct (existsb _ _).
  - intros required fv Hreq Hopt Hnone.
    rewrite (ValidateFlags_required_ok s reg required) by done. split.
    + intros Hall. apply (checkAdditional_nil_ok s reg required Hsel Hreq Hopt).
      intros flg v Hin Hp.
      rewrite (range_flags_perm ro), elem_of_map_to_list in Hin.
      apply Hall, is_provided_lookup. by eauto.
    + intros (flg & Hp & Hm).
      apply is_provided_lookup in Hp as (v & Hlk & Hp).
      apply (checkAdditional_nil_found s reg required Hsel Hreq Hopt).
      exists flg, v. by rewrite (range_flags_perm ro), elem_of_map_to_list.
Qed.

(** A descriptor with required flag username and no map of optional flags:
    username alone passes, a further flag panics, a nil flag map panics. *)
Lemma ValidateFlags_nil_maps_witness :
  ValidateFlags order_id None chosenBare [] =
    (Panic (NilDereference NilFlagValues), chosenBare, []) /\
  ValidateFlags order_id (Some flags_username) chosenBare [] =
    (Done tt, chosenBare, []) /\
  ValidateFlags order_id (Some (<["d" := flag true]> flags_username)) chosenBare [] =
    (Panic (NilDereference NilOptionalFlags), chosenBare, []).
Proof.
  pose proof (ValidateFlags_nil_maps order_id chosenBare [] bare eq_refl)
    as (_ & Hnil & Hopt).
  split; [by apply (Hnil (<["username" := true]> ∅)) |].
  split.
  - apply (Hopt (<["username" := true]> ∅) flags_username eq_refl eq_refl).
    + apply no_missingb_sound. reflexivity.
    + intros flg Hp. apply is_provided_lookup in Hp as (v & Hlk & _).
      unfold flags_username in Hlk.
      apply lookup_insert_Some in Hlk as [[<- _] | [_ Hlk]]; [reflexivity |].
      by rewrite lookup_empty in Hlk.
  - apply (Hopt (<["username" := true]> ∅) (<["d" := flag true]> flags_username)
             eq_refl eq_refl).
    + apply no_missingb_sound. reflexivity.
    + exists "d"%string. split; reflexivity.
Defined.

Lemma no_missingb_complete required fv :
  (forall flg, ~ missing_required required fv flg) -> no_missingb required fv = true.
Proof.
  intros Hnone. unfold no_missingb. apply forallb_forall. intros [flg b] Hin.
  apply list_elem_of_In, elem_of_map_to_list in Hin. simpl.
  destruct b; [| done]. simpl.
  destruct (is_provided fv flg) eqn:Hp; [done |].
  destruct (Hnone flg). split; [by apply marked_lookup | done].
Qed.

Lemma no_unsupportedb_complete required optional fv :
  (forall flg, ~ unsupported required optional fv flg) ->
  no_unsupportedb required optional fv = true.
Proof.
  intros Hnone. unfold no_unsupportedb. apply forallb_forall. intros [flg v] Hin.
  apply list_elem_of_In, elem_of_map_to_list in Hin. simpl.
  destruct (is_additional required optional flg v) eqn:Hadd; [| done].
  destruct (Hnone flg). by apply (is_additional_unsupported required optional fv flg v).
Qed.

(** X12. Acceptance is decided by the entries of the maps: on a selected
    descriptor with both flag maps, [ValidateFlags] returns normally exactly
    when every entry of the required map is marked [false] or provided and
    no entry of the flag map is provided without being required or optional;
    the order of the loops has no part in it. *)
Theorem ValidateFlags_accepts_iff (ro : RangeOrder) (s : State) (t : list Event)
    (reg : Registry) (required optional : gmap string bool)
    (fv : gmap string FlagValue) :
  registries s !! optionToExec s = Some reg ->
  RequiredFlags (Flags_ reg) = Some required ->
  OptionalFlags (Flags_ reg) = Some optional ->
  outcome (ValidateFlags ro (Some fv) s t) = Done tt <->
  no_missingb required fv && no_unsupportedb required optional fv = true.
Proof.
  intros Hsel Hreq Hopt. rewrite andb_true_iff. split.
  - intros Hdone. split.
    + apply no_missingb_complete. intros flg Hm.
      destruct (ValidateFlags_missing s reg required Hsel Hreq ro fv t)
        as (g & _ & Hrun); [by eauto |].
      by rewrite Hrun in Hdone.
    + destruct (no_missingb required fv) eqn:Hmiss.
      2: { assert (exists flg, missing_required required fv flg) as Hex.
           { destruct (decide (Forall (fun e => negb e.2 || is_provided fv e.1 = true)
                                 (map_to_list required))) as [Hall | Hnot].
             - unfold no_missingb in Hmiss.
               rewrite (proj2 (forallb_forall _ _)) in Hmiss; [done |].
               rewrite Forall_forall in Hall. intros e He. apply Hall.
               by apply list_elem_of_In.
             - apply not_Forall_Exists in Hnot; [| intros e; apply _].
               apply Exists_exists in Hnot as ([flg b] & Hin & Hbad).
               apply elem_of_map_to_list in Hin. simpl in Hbad.
               exists flg. destruct b; [| done]. simpl in Hbad.
               split; [by apply marked_lookup |]. by destruct (is_provided fv flg). }
           destruct (ValidateFlags_missing s reg required Hsel Hreq ro fv t Hex)
             as (g & _ & Hrun).
           by rewrite Hrun in Hdone. }
      apply no_unsupportedb_complete. intros flg Hun.
      rewrite (ValidateFlags_required_ok s reg required) in Hdone;
        [| done | done | by apply no_missingb_sound].
      destruct (unsupported_entry required optional fv flg Hun) as (v & Hlk & Hadd).
      destruct (checkAdditional_found s reg required optional Hsel Hreq Hopt
                  (range_flags ro (map_to_list fv)) t) as (g & u & _ & _ & Hrun).
      { exists flg, v. by rewrite (range_flags_perm ro), elem_of_map_to_list. }
      by rewrite Hrun in Hdone.
  - intros [Hmiss Hun].
    rewrite (ValidateFlags_required_ok s reg required);
      [| done | done | by apply no_missingb_sound].
    rewrite (checkAdditional_ok s reg required optional Hsel Hreq Hopt); [done |].
    intros flg v Hin.
    rewrite (range_flags_perm ro), elem_of_map_to_list in Hin.
    destruct (is_additional required optional flg v) eqn:Hadd; [| done].
    destruct (no_unsupportedb_sound required optional fv Hun flg).
    by apply (is_additional_unsupported required optional fv flg v).
Qed.

(** The flag maps of the scenario: username and password pass, username
    alone does not. *)
Lemma ValidateFlags_accepts_iff_witness :
  outcome (ValidateFlags order_rev (Some flags_both) chosen1 []) = Done tt /\
  outcome (ValidateFlags order_rev (Some flags_username) chosen1 []) <> Done tt.
Proof.
  split.
  - apply (ValidateFlags_accepts_iff order_rev chosen1 [] dockerHub
             (<["username" := true]> (<["password" := true]> ∅))
             (<["url" := true]> ∅) flags_both eq_refl eq_refl eq_refl).
    reflexivity.
  - intros Hdone.
    apply (ValidateFlags_accepts_iff order_rev chosen1 [] dockerHub
             (<["username" := true]> (<["password" := true]> ∅))
             (<["url" := true]> ∅) flags_username eq_refl eq_refl eq_refl) in Hdone.
    vm_compute in Hdone. discriminate Hdone.
Defined.

(** ** Further properties of the controller-config update *)

Lemma updateCtrlConfig_read_fails E registryType repository s t e :
  GetCommandOutput E (getConfigArgs E) = inr e ->
  updateCtrlConfig E registryType repository s t =
    (Exit ("Error reading controller-config." +:+ nl +:+
           "Install api operator using the command: apictl install api-operator")
       (Some "error reading controller-config"%string), s,
     t ++ [EvGetCommandOutput (getConfigArgs E)]).
Proof. intros Hget. unfold updateCtrlConfig. unfold_go. by rewrite Hget. Qed.

Lemma updateCtrlConfig_decode_fails E registryType repository s t y e :
  GetCommandOutput E (getConfigArgs E) = inl y ->
  yaml_Unmarshal E y = inr e ->
  updateCtrlConfig E registryType repository s t =
    (Exit "Error reading controller-config" (Some e), s,
     t ++ [EvGetCommandOutput (getConfigArgs E)]).
Proof. intros Hget Hdec. unfold updateCtrlConfig. unfold_go. by rewrite Hget, Hdec. Qed.

(** X13. What [updateCtrlConfig] sends to the cluster.  Every run starts with the
    read of the config map and leaves the package state as it was.  Nothing
    else happens, or one text is applied after it: the encoding of the decoded
    config map with the two keys set under ["data"].  So nothing is applied
    when the read, the decoding, the type assertion or the encoding fails. *)
Theorem updateCtrlConfig_applies_update_only (E : Collab)
    (registryType repository : string) (s : State) (t : list Event) :
  let r := updateCtrlConfig E registryType repository s t in
  final r = s /\
  (trace r = t ++ [EvGetCommandOutput (getConfigArgs E)] /\ outcome r <> Done tt \/
   exists y m data out,
     GetCommandOutput E (getConfigArgs E) = inl y /\
     yaml_Unmarshal E y = inl m /\
     m !! KStr "data" = Some (VMap data) /\
     yaml_Marshal E (updatedConfig E m data registryType repository) = inl out /\
     trace r = t ++ [EvGetCommandOutput (getConfigArgs E); EvApplyFromStdin out]).
Proof.
  intros r. subst r.
  destruct (GetCommandOutput E (getConfigArgs E)) as [y | e] eqn:Hget.
  2: { rewrite (updateCtrlConfig_read_fails E _ _ s t e) by done.
       split; [done | left; done]. }
  destruct (yaml_Unmarshal E y) as [m | e] eqn:Hdec.
  2: { rewrite (updateCtrlConfig_decode_fails E _ _ s t y e) by done.
       split; [done | left; done]. }
  destruct (m !! KStr "data") as [v |] eqn:Hdata.
  1: destruct v as [| | | | | data].
  6: { rewrite (updateCtrlConfig_run E registryType repository s t y m data) by done.
       destruct (yaml_Marshal E _) as [out | err] eqn:Henc.
       - split; [done |]. right. exists y, m, data, out. done.
       - split; [done | left; done]. }
  all: rewrite (updateCtrlConfig_no_data E registryType repository s t y m);
    [split; [done | left; done] | done | done | congruence].
Qed.

(** X14. The failures that [updateCtrlConfig] reports.  A failed read ends in the
    hint to install the operator, with an error of its own in place of the
    one of the command; a failed decoding ends in "Error reading
    controller-config" with the decoder's error; both before anything is
    applied.  A failed apply ends in "Error creating controller-configs"
    with the error of the apply, the text having been sent. *)
Theorem updateCtrlConfig_failures (E : Collab) (registryType repository : string)
    (s : State) (t : list Event) :
  let r := updateCtrlConfig E registryType repository s t in
  (forall e, GetCommandOutput E (getConfigArgs E) = inr e ->
     r = (Exit ("Error reading controller-config." +:+ nl +:+
                "Install api operator using the command: apictl install api-operator")
            (Some "error reading controller-config"%string), s,
          t ++ [EvGetCommandOutput (getConfigArgs E)])) /\
  (forall y e, GetCommandOutput E (getConfigArgs E) = inl y ->
     yaml_Unmarshal E y = inr e ->
     r = (Exit "Error reading controller-config" (Some e), s,
          t ++ [EvGetCommandOutput (getConfigArgs E)])) /\
  (forall y m data out e,
     GetCommandOutput E (getConfigArgs E) = inl y ->
     yaml_Unmarshal E y = inl m ->
     m !! KStr "data" = Some (VMap data) ->
     yaml_Marshal E (updatedConfig E m data registryType repository) = inl out ->
     K8sApplyFromStdin E out = Some e ->
     r = (Exit "Error creating controller-configs" (Some e), s,
          t ++ [EvGetCommandOutput (getConfigArgs E); EvApplyFromStdin out])).
Proof.
  intros r. subst r. split; [| split].
  - intros e. apply updateCtrlConfig_read_fails.
  - intros y e. apply updateCtrlConfig_decode_fails.
  - intros y m data out e Hget Hdec Hdata Henc Happly.
    rewrite (updateCtrlConfig_run E registryType repository s t y m data) by done.
    by rewrite Henc, Happly.
Qed.

(** A cluster without the operator, a config map that does not decode, and
    an apply that is forbidden. *)
Lemma updateCtrlConfig_failures_witness :
  outcome (updateCtrlConfig
             (doubleOf (inr "exit status 1"%string) (inl configMap)
                (inl "kind: ConfigMap"%string) None)
             "docker-hub" "wso2" chosen1 []) =
    Exit ("Error reading controller-config." +:+ nl +:+
          "Install api operator using the command: apictl install api-operator")
      (Some "error reading controller-config"%string) /\
  outcome (updateCtrlConfig
             (doubleOf (inl "kind: ["%string) (inr "yaml: line 1"%string)
                (inl "kind: ConfigMap"%string) None)
             "docker-hub" "wso2" chosen1 []) =
    Exit "Error reading controller-config" (Some "yaml: line 1"%string) /\
  updateCtrlConfig
    (doubleOf (inl "kind: ConfigMap"%string) (inl configMap)
       (inl "kind: ConfigMap"%string) (Some "forbidden"%string))
    "docker-hub" "wso2" chosen1 [] =
    (Exit "Error creating controller-configs" (Some "forbidden"%string), chosen1,
     [EvGetCommandOutput
        ["kubectl"; "get"; "configmap"; "controller-config"; "-n"; "wso2-system";
         "-o"; "yaml"]%string;
      EvApplyFromStdin "kind: ConfigMap"]).
Proof.
  split; [| split].
  - pose proof (updateCtrlConfig_failures
                  (doubleOf (inr "exit status 1"%string) (inl configMap)
                     (inl "kind: ConfigMap"%string) None)
                  "docker-hub" "wso2" chosen1 []) as (Hread & _).
    by rewrite (Hread "exit status 1"%string eq_refl).
  - pose proof (updateCtrlConfig_failures
                  (doubleOf (inl "kind: ["%string) (inr "yaml: line 1"%string)
                     (inl "kind: ConfigMap"%string) None)
                  "docker-hub" "wso2" chosen1 []) as (_ & Hdec & _).
    by rewrite (Hdec "kind: ["%string "yaml: line 1"%string eq_refl eq_refl).
  - pose proof (updateCtrlConfig_failures
                  (doubleOf (inl "kind: ConfigMap"%string) (inl configMap)
                     (inl "kind: ConfigMap"%string) (Some "forbidden"%string))
                  "docker-hub" "wso2" chosen1 []) as (_ & _ & Happly).
    apply (Happly "kind: ConfigMap"%string configMap configData
             "kind: ConfigMap"%string "forbidden"%string); reflexivity.
Defined.



(** ** Further properties of the dispatch and the orchestration *)

(** X16. [ReadInputsInteractive] and [ReadInputsFromFlags] call the [Read] of the
    selected descriptor, once, the first with a nil flag map and the second
    with its argument, and end as that call ends; when [Read] is nil they
    panic without a call. *)
Theorem ReadInputs_dispatch (E : Collab) (s : State) (t : list Event)
    (reg : Registry) (flagValues : option (gmap string FlagValue)) :
  registries s !! optionToExec s = Some reg ->
  (forall f, Read reg = Some f ->
     ReadInputsFromFlags E flagValues s t =
       (let '(o, s') := call_Read E f flagValues s in
        (o, s', t ++ [EvRead f flagValues])) /\
     ReadInputsInteractive E s t =
       (let '(o, s') := call_Read E f None s in (o, s', t ++ [EvRead f None]))) /\
  (Read reg = None ->
     ReadInputsFromFlags E flagValues s t = (Panic (NilDereference NilFunc), s, t) /\
     ReadInputsInteractive E s t = (Panic (NilDereference NilFunc), s, t)).
Proof.
  intros Hsel. unfold ReadInputsFromFlags, ReadInputsInteractive. unfold_go.
  rewrite Hsel. cbv beta iota. split.
  - intros f ->. cbv beta iota.
    split; [by destruct (call_Read E f flagValues s) | by destruct (call_Read E f None s)].
  - by intros ->.
Qed.

(** Docker Hub reads its inputs; the bare descriptor has no [Read]. *)
Lemma ReadInputs_dispatch_witness :
  ReadInputsFromFlags (double configMap (Answer 1) None) (Some flags_both) chosen1 [] =
    (Done tt, chosen1, [EvRead 0%nat (Some flags_both)]) /\
  ReadInputsInteractive (double configMap (Answer 1) None) chosenBare [] =
    (Panic (NilDereference NilFunc), chosenBare, []).
Proof.
  split.
  - pose proof (ReadInputs_dispatch (double configMap (Answer 1) None) chosen1 []
                  dockerHub (Some flags_both) eq_refl) as (Hcall & _).
    apply (Hcall 0%nat eq_refl).
  - pose proof (ReadInputs_dispatch (double configMap (Answer 1) None) chosenBare []
                  bare None eq_refl) as (_ & Hnil).
    apply (Hnil eq_refl).
Defined.

(** X17. No rollback: once the config update has returned normally,
    [UpdateConfigsSecrets] ends as [Run] ends, whether it returns, exits or
    panics, and panics itself when [Run] is nil; in each case the applied
    config stays in the trace and no further call to the cluster follows. *)
Theorem UpdateConfigsSecrets_no_rollback (E : Collab) (s : State)
    (reg : Registry) (repository : string) (applied : list Event) :
  registries s !! optionToExec s = Some reg ->
  Repository reg = Some repository ->
  updateCtrlConfig E (Name reg) repository s [] = (Done tt, s, applied) ->
  (forall f, Run reg = Some f ->
     UpdateConfigsSecrets E s [] =
       (let '(o, s') := call_Run E f s in (o, s', applied ++ [EvRun f]))) /\
  (Run reg = None ->
     UpdateConfigsSecrets E s [] = (Panic (NilDereference NilFunc), s, applied)).
Proof.
  intros Hsel Hrepo Hupdate.
  rewrite (UpdateConfigsSecrets_run E s [] reg repository) by done.
  rewrite Hupdate. split; [by intros f -> | by intros ->].
Qed.

(** The config is applied, then the creation of the secret fails. *)
Lemma UpdateConfigsSecrets_no_rollback_witness :
  UpdateConfigsSecrets
    (doubleOf (inl "kind: ConfigMap"%string) (inl configMap)
       (inl "kind: ConfigMap # updated"%string) None) chosen1 [] =
    (Exit "Error creating secret" None, chosen1,
     [EvGetCommandOutput
        ["kubectl"; "get"; "configmap"; "controller-config"; "-n"; "wso2-system";
         "-o"; "yaml"]%string;
      EvApplyFromStdin "kind: ConfigMap # updated";
      EvRun 1%nat]) /\
  UpdateConfigsSecrets
    (doubleOf (inl "kind: ConfigMap"%string) (inl configMap)
       (inl "kind: ConfigMap # updated"%string) None) chosenBare [] =
    (Panic (NilDereference NilFunc), chosenBare,
     [EvGetCommandOutput
        ["kubectl"; "get"; "configmap"; "controller-config"; "-n"; "wso2-system";
         "-o"; "yaml"]%string;
      EvApplyFromStdin "kind: ConfigMap # updated"]).
Proof.
  split.
  - pose proof (UpdateConfigsSecrets_no_rollback
                  (doubleOf (inl "kind: ConfigMap"%string) (inl configMap)
                     (inl "kind: ConfigMap # updated"%string) None)
                  chosen1 dockerHub "wso2" _ eq_refl eq_refl eq_refl) as (Hrun & _).
    apply (Hrun 1%nat eq_refl).
  - pose proof (UpdateConfigsSecrets_no_rollback
                  (doubleOf (inl "kind: ConfigMap"%string) (inl configMap)
                     (inl "kind: ConfigMap # updated"%string) None)
                  chosenBare bare "wso2" _ eq_refl eq_refl eq_refl) as (_ & Hnil).
    apply (Hnil eq_refl).
Defined.

(** ** Names that are not unique *)

(** X6. [add] does not compare names, so several options may carry one name;
    then the order of the scan decides: each of them is the option that
    [SetRegistry] stores for some order in which [range] may visit the
    catalog. *)
Theorem SetRegistry_any_match (name : string) (s : State) (t : list Event)
    (k : Z) (r : Registry) :
  registries s !! k = Some r ->
  Name r = name ->
  SetRegistry (order_first k) name s t =
    (Done tt, {| registries := registries s; optionToExec := k |}, t).
Proof.
  intros Hlk Hname. unfold SetRegistry. unfold_go. cbn [range_registries order_first].
  assert ((k, r) ∈ filter (fun e : Z * Registry => e.1 = k) (map_to_list (registries s)))
    as Hin.
  { apply list_elem_of_filter. split; [done |]. by apply elem_of_map_to_list. }
  destruct (filter (fun e : Z * Registry => e.1 = k) (map_to_list (registries s)))
    as [| [k' r'] rest] eqn:Hfilter; [by apply elem_of_nil in Hin |].
  assert ((k', r') ∈ filter (fun e : Z * Registry => e.1 = k)
                       (map_to_list (registries s))) as Hhd.
  { rewrite Hfilter. by left. }
  apply list_elem_of_filter in Hhd as [Hk Hhd]. simpl in Hk. subst k'.
  apply elem_of_map_to_list in Hhd. rewrite Hlk in Hhd. inversion Hhd; subst r'.
  cbn [app scanRegistries]. by rewrite bool_decide_eq_true_2.
Qed.

(** Docker Hub and its mirror share a name: either can be selected. *)
Lemma SetRegistry_any_match_witness :
  optionToExec (final (SetRegistry (order_first 1) "docker-hub" catalogTwins [])) = 1 /\
  optionToExec (final (SetRegistry (order_first 2) "docker-hub" catalogTwins [])) = 2.
Proof.
  split.
  - by rewrite (SetRegistry_any_match "docker-hub" catalogTwins [] 1 dockerHub
                  eq_refl eq_refl).
  - by rewrite (SetRegistry_any_match "docker-hub" catalogTwins [] 2 mirror
                  eq_refl eq_refl).
Defined.
